(** * pyrobolearn: the [Task] orchestration object

    A shallow embedding of the class [Task] of [pyrobolearn/tasks/task.py]:
    its constructor, the properties [done], [succeeded], [failed],
    [environment], [policy], [learning_model] and [actions], the methods
    [is_finished], [has_succeeded], [has_failed], [reset], [step] and [run],
    and [__copy__].

    Python objects with identity (environments, policies, lists, tasks) live
    in a store indexed by their identity; immutable data (strings, integers,
    [None]) are immediate values.  A method is a function in a monad of
    state and exceptions over that store.

    The classes [Env] and [Policy] come from other packages
    ([pyrobolearn.envs], [pyrobolearn.policies]): what their methods do is
    an interface ([Collab]), whose joint internal state is the abstract
    [World].  Their instances are not iterable.  A
    collaborator method is a total transformer of the [World]; [Task] has no
    [try] block, so an exception of a collaborator would leave every method
    below at once.  The exceptions the interpreter raises for the operations
    of [Task] itself ([TypeError], [AttributeError], ...) are modelled. *)

From stdpp Require Import base option list gmap strings.
From Stdlib Require Import ZArith Lia.

Open Scope Z_scope.
Open Scope nat_scope.

(** ** Values and objects *)

(** Identity of an object, Python's [id(o)]. *)
Definition loc := positive.
Bind Scope positive_scope with loc.

Inductive val :=
| VNone
| VInt (z : Z)
| VStr (s : string)
| VRef (l : loc).
Arguments VRef l%_positive.

(** The instance attributes a [Task] gets in [__init__]. *)
Record Task := mkTask {
  env : val;
  policies : val;
  _done : bool;
  _succeeded : bool
}.

Inductive obj :=
| OEnv                   (* an instance of [Env]; its state is in the [World] *)
| OPolicy                (* an instance of [Policy]; its state is in the [World] *)
| OList (xs : list val)  (* a [list] or [tuple] *)
| OTask (t : Task)       (* an instance of [Task] *)
| OObject.               (* an instance of another class, neither environment,
                            policy nor iterable; also a new instance that
                            [__init__] has not given its attributes yet *)

Inductive exn :=
| TypeError
| AttributeError
| IndexError
| ValueError.

(** What [run] returns: [total_rewards[0]] or [total_rewards]. *)
Inductive run_value (R : Type) :=
| Scalar (r : R)
| Vector (rs : list R).
Arguments Scalar {R} r.
Arguments Vector {R} rs.

(** ** The collaborators *)

(** What [Env] and [Policy] have to provide, by the methods and attributes
    that [task.py] uses.  [Reward] stands for the numbers numpy adds up:
    [rzero] is an entry of [np.zeros], [radd] the addition of [+=]. *)
Class Collab := {
  World : Type;
  States : Type;
  Action : Type;
  Obs : Type;
  Info : Type;
  Reward : Type;
  rzero : Reward;
  radd : Reward → Reward → Reward;
  env_reset : loc → World → Obs * World;
  env_step : loc → Action → World → (Obs * Reward * bool * Info) * World;
  env_render : loc → World → World;
  env_hide : loc → World → World;
  policy_states : loc → World → States;
  policy_act : loc → States → bool → World → Action * World;
  policy_reset : loc → World → World;
  policy_model : loc → World → val;
  policy_actions : loc → World → val
}.

(** ** Program states and the monad of methods *)

Record State `{Collab} := mkState {
  heap : gmap loc obj;
  world : World
}.

Inductive result `{Collab} (A : Type) :=
| Ok (a : A) (σ : State)
| Raise (e : exn)
| OutOfFuel.
Arguments Ok {_ _} a σ.
Arguments Raise {_ _} e.
Arguments OutOfFuel {_ _}.

Definition M `{Collab} (A : Type) : Type := State → result A.

Definition ret `{Collab} {A} (a : A) : M A := λ σ, Ok a σ.

Definition raise `{Collab} {A} (e : exn) : M A := λ _, Raise e.

Definition bind `{Collab} {A B} (m : M A) (k : A → M B) : M B :=
  λ σ, match m σ with
       | Ok a σ' => k a σ'
       | Raise e => Raise e
       | OutOfFuel => OutOfFuel
       end.

Notation "'let*' x ':=' m 'in' k" := (bind m (λ x, k))
  (at level 10, x pattern, m at level 100, k at level 200, only parsing).
Notation "m ';;' k" := (bind m (λ _, k))
  (at level 100, k at level 200, right associativity, only parsing).

Section Methods.
Context `{Collab}.

Definition get_heap : M (gmap loc obj) := λ σ, Ok (heap σ) σ.

Definition upd_heap (f : gmap loc obj → gmap loc obj) : M unit :=
  λ σ, Ok tt (mkState _ (f (heap σ)) (world σ)).

(** Run a collaborator method on the [World]. *)
Definition on_world {A} (f : World → A * World) : M A :=
  λ σ, let '(a, w) := f (world σ) in Ok a (mkState _ (heap σ) w).

Definition read_world {A} (f : World → A) : M A := λ σ, Ok (f (world σ)) σ.

(** A new object: its identity is one no object of the store has. *)
Definition alloc (o : obj) : M loc :=
  λ σ, let l := fresh (dom (heap σ)) in
       Ok l (mkState _ (<[l := o]> (heap σ)) (world σ)).

(** ** Builtins *)

(** The object a value refers to, if it is a reference to one. *)
Definition class_of (h : gmap loc obj) (v : val) : option obj :=
  match v with
  | VRef l => h !! l
  | _ => None
  end.

(** [isinstance(v, Env)] *)
Definition isinstance_Env (h : gmap loc obj) (v : val) : bool :=
  match class_of h v with
  | Some OEnv => true
  | _ => false
  end.

(** [isinstance(v, Policy)] *)
Definition isinstance_Policy (h : gmap loc obj) (v : val) : bool :=
  match class_of h v with
  | Some OPolicy => true
  | _ => false
  end.

(** The one-character strings that iterating over a [str] yields. *)
Fixpoint chars (s : string) : list val :=
  match s with
  | EmptyString => []
  | String c s' => VStr (String c EmptyString) :: chars s'
  end.

(** The items [for x in v] goes through, [None] when [v] is no iterable. *)
Definition items (h : gmap loc obj) (v : val) : option (list val) :=
  match v with
  | VStr s => Some (chars s)
  | VRef l => match h !! l with
              | Some (OList xs) => Some xs
              | _ => None
              end
  | _ => None
  end.

(** [isinstance(v, collections.abc.Iterable)] *)
Definition isinstance_Iterable (h : gmap loc obj) (v : val) : bool :=
  match items h v with
  | Some _ => true
  | None => false
  end.

(** [iter(v)], as the list of the items. *)
Definition iterate (v : val) : M (list val) :=
  let* h := get_heap in
  match items h v with
  | Some xs => ret xs
  | None => raise TypeError
  end.

(** [len(v)] *)
Definition len (v : val) : M nat :=
  let* h := get_heap in
  match items h v with
  | Some xs => ret (length xs)
  | None => raise TypeError
  end.

(** [v[i]] for an index [i >= 0]. *)
Definition getitem (v : val) (i : nat) : M val :=
  let* h := get_heap in
  match items h v with
  | Some xs => match xs !! i with
               | Some x => ret x
               | None => raise IndexError
               end
  | None => raise TypeError
  end.

(** ** Attribute access and method calls *)

(** The attributes of [self], an instance of [Task]. *)
Definition get_task (self : loc) : M Task :=
  let* h := get_heap in
  match h !! self with
  | Some (OTask t) => ret t
  | _ => raise AttributeError
  end.

Definition set_task (self : loc) (t : Task) : M unit :=
  upd_heap (<[self := OTask t]>).

(** [self._done = b] *)
Definition set_done (self : loc) (b : bool) : M unit :=
  let* t := get_task self in
  set_task self (mkTask (env t) (policies t) b (_succeeded t)).

(** [self._succeeded = b] *)
Definition set_succeeded (self : loc) (b : bool) : M unit :=
  let* t := get_task self in
  set_task self (mkTask (env t) (policies t) (_done t) b).

(** The receiver of a method of [Env]. *)
Definition as_Env (v : val) : M loc :=
  let* h := get_heap in
  match v with
  | VRef l => if isinstance_Env h v then ret l else raise AttributeError
  | _ => raise AttributeError
  end.

(** The receiver of a method or attribute of [Policy]. *)
Definition as_Policy (v : val) : M loc :=
  let* h := get_heap in
  match v with
  | VRef l => if isinstance_Policy h v then ret l else raise AttributeError
  | _ => raise AttributeError
  end.

(** ** [Task.__init__] *)

(** The loop [for policy in policies: if not isinstance(policy, Policy): raise]. *)
Fixpoint check_policies (h : gmap loc obj) (xs : list val) : M unit :=
  match xs with
  | [] => ret tt
  | policy :: rest =>
      if negb (isinstance_Policy h policy) then raise TypeError
      else check_policies h rest
  end.

Definition __init__ (self : loc) (environment policies : val) : M unit :=
  let* h := get_heap in
  (* check the environment *)
  if negb (isinstance_Env h environment) then raise TypeError else
  (* self.env = environment: the four attributes are stored together below,
     nothing reads them in between *)
  (* check the policies *)
  let* policies :=
    if isinstance_Iterable h policies then
      (let* xs := iterate policies in
       check_policies h xs;;
       ret policies)
    else if isinstance_Policy h policies then
      (let* l := alloc (OList [policies]) in ret (VRef l))
    else raise TypeError in
  set_task self (mkTask environment policies false false).

(** The call [Task(environment, policies)]: a new instance, then [__init__]. *)
Definition Task_new (environment policies : val) : M loc :=
  let* self := alloc OObject in
  __init__ self environment policies;;
  ret self.

(** ** Properties *)

(** [self.done] *)
Definition done (self : loc) : M bool :=
  let* t := get_task self in ret (_done t).

(** [self.succeeded] *)
Definition succeeded (self : loc) : M bool :=
  let* t := get_task self in ret (_succeeded t).

(** [self.failed] *)
Definition failed (self : loc) : M bool :=
  let* b := succeeded self in ret (negb b).

(** [self.environment] *)
Definition environment (self : loc) : M val :=
  let* t := get_task self in ret (env t).

(** [self.policy] *)
Definition policy (self : loc) : M val :=
  let* t := get_task self in
  let* n := len (policies t) in
  if n =? 1 then getitem (policies t) 0
  else ret (policies t).

(** The comprehension [[policy.model for policy in ...]], and the one for
    [policy.actions], before the list object is made. *)
Fixpoint attr_of_each (attr : loc → World → val) (xs : list val) : M (list val) :=
  match xs with
  | [] => ret []
  | policy :: rest =>
      let* p := as_Policy policy in
      let* a := read_world (attr p) in
      let* r := attr_of_each attr rest in
      ret (a :: r)
  end.

Definition collapsed_attr (attr : loc → World → val) (self : loc) : M val :=
  let* t := get_task self in
  let* n := len (policies t) in
  if n =? 1 then
    (let* x := getitem (policies t) 0 in
     let* p := as_Policy x in
     read_world (attr p))
  else
    (let* t := get_task self in
     let* xs := iterate (policies t) in
     let* r := attr_of_each attr xs in
     let* l := alloc (OList r) in
     ret (VRef l)).

(** [self.learning_model] *)
Definition learning_model (self : loc) : M val :=
  collapsed_attr policy_model self.

(** [self.actions] *)
Definition actions (self : loc) : M val :=
  collapsed_attr policy_actions self.

(** ** Methods *)

(** [self.is_finished()] *)
Definition is_finished (self : loc) : M bool := done self.

(** [self.has_succeeded()] *)
Definition has_succeeded (self : loc) : M bool := succeeded self.

(** [self.has_failed()] *)
Definition has_failed (self : loc) : M bool := failed self.

(** The loop [for policy in self.policies: policy.reset()]. *)
Fixpoint reset_policies (xs : list val) : M unit :=
  match xs with
  | [] => ret tt
  | policy :: rest =>
      let* p := as_Policy policy in
      on_world (λ w, (tt, policy_reset p w));;
      reset_policies rest
  end.

(** [self.reset()] *)
Definition reset (self : loc) : M unit :=
  (* reset variables *)
  set_done self false;;
  set_succeeded self false;;
  (* reset env and policies *)
  let* t := get_task self in
  let* e := as_Env (env t) in
  on_world (env_reset e);;
  let* t := get_task self in
  let* xs := iterate (policies t) in
  reset_policies xs.

(** The loop of [step] over the policies; [rewards] is the list it appends to. *)
Fixpoint step_loop (self : loc) (deterministic : bool) (xs : list val)
    (rewards : list Reward) : M (list Reward) :=
  match xs with
  | [] => ret rewards
  | policy :: rest =>
      let* p := as_Policy policy in
      let* states := read_world (policy_states p) in
      let* actions := on_world (policy_act p states deterministic) in
      let* t := get_task self in
      let* e := as_Env (env t) in
      let* (obs, rew, done, info) := on_world (env_step e actions) in
      set_done self done;;
      step_loop self deterministic rest (rewards ++ [rew])
  end.

(** [self.step(deterministic, render)]; the value is [np.array(rewards)]. *)
Definition step (self : loc) (deterministic render : bool) : M (list Reward) :=
  (* if we need to render the environment *)
  let* t := get_task self in
  let* e := as_Env (env t) in
  on_world (λ w, (tt, if render then env_render e w else env_hide e w));;
  let* t := get_task self in
  let* xs := iterate (policies t) in
  step_loop self deterministic xs [].

(** [total_rewards += rewards] on one-dimensional arrays: entry by entry
    for equal shapes, an array of one entry is broadcast, any other pair
    of shapes is refused. *)
Definition np_iadd (total rewards : list Reward) : M (list Reward) :=
  if length rewards =? length total then ret (zip_with radd total rewards)
  else match rewards with
       | [r] => ret (map (λ x, radd x r) total)
       | _ => raise ValueError
       end.

(** The loop [for t in count()] of [run], from the counter [t] on.  With
    [num_steps = None] the bound is [np.infty], which no counter reaches;
    [fuel] bounds the iterations of the model only.  [time.sleep(dt)] is
    taken at the default [dt = 0], where it changes nothing. *)
Fixpoint run_loop (fuel : nat) (self : loc) (num_steps : option Z)
    (use_terminating_condition render : bool) (t : nat)
    (total_rewards : list Reward) : M (list Reward) :=
  match fuel with
  | 0 => λ _, OutOfFuel
  | S fuel' =>
      if match num_steps with
         | Some n => (n <=? Z.of_nat t)%Z
         | None => false
         end
      then ret total_rewards
      else
        let* rewards := step self true render in
        let* total_rewards := np_iadd total_rewards rewards in
        let* stop :=
          if use_terminating_condition
          then (let* task := get_task self in ret (_done task))
          else ret false in
        if stop then ret total_rewards
        else run_loop fuel' self num_steps use_terminating_condition render
               (S t) total_rewards
  end.

(** [self.run(num_steps, 0, use_terminating_condition, render)] *)
Definition run (fuel : nat) (self : loc) (num_steps : option Z)
    (use_terminating_condition render : bool) : M (run_value Reward) :=
  let* t := get_task self in
  let* n := len (policies t) in
  let total_rewards := replicate n rzero in
  reset self;;
  let* total_rewards :=
    run_loop fuel self num_steps use_terminating_condition render 0
      total_rewards in
  match total_rewards with
  | [r] => ret (Scalar r)
  | _ => ret (Vector total_rewards)
  end.

(** [self.__copy__()], for an instance of [Task] itself
    ([self.__class__] is [Task]). *)
Definition __copy__ (self : loc) : M loc :=
  let* e := environment self in
  let* t := get_task self in
  Task_new e (policies t).

End Methods.

(** ** A stub environment and stub policies *)

(** The state of the stub is the number of calls of [env.step] since the
    last [env.reset]; every call is rewarded [1] whatever the action, and
    reports [done] from the call number [done_after] on (never when that is
    [None]).  The rewards are integers, which numpy's float64 adds up
    exactly in this range.  The model and the action space of a policy are
    the strings ["model"] and ["actions"]. *)
Definition stub (done_after : option nat) : Collab := {|
  World := nat;
  States := unit;
  Action := unit;
  Obs := unit;
  Info := unit;
  Reward := Z;
  rzero := 0%Z;
  radd := Z.add;
  env_reset := λ _ _, (tt, 0);
  env_step := λ _ _ n,
    ((tt, 1%Z, match done_after with
               | Some k => k <=? S n
               | None => false
               end, tt), S n);
  env_render := λ _ n, n;
  env_hide := λ _ n, n;
  policy_states := λ _ _, tt;
  policy_act := λ _ _ _ n, (tt, n);
  policy_reset := λ _ n, n;
  policy_model := λ _ _, VStr "model";
  policy_actions := λ _ _, VStr "actions"
|}.

(** The objects of the stub: an environment, two policies, the lists
    [[policy_a]], [[policy_a, policy_b]] and [[]], an object of another
    class, and the identity the first new object of the store gets. *)
Definition the_env : loc := 1.
Definition policy_a : loc := 2.
Definition policy_b : loc := 3.
Definition list_a : loc := 4.
Definition list_ab : loc := 5.
Definition list_none : loc := 6.
Definition other : loc := 7.
Definition the_task : loc := 8.

Definition stub_heap : gmap loc obj :=
  list_to_map [(the_env, OEnv); (policy_a, OPolicy); (policy_b, OPolicy);
               (list_a, OList [VRef policy_a]);
               (list_ab, OList [VRef policy_a; VRef policy_b]);
               (list_none, OList []); (other, OObject)].

Definition stub_state (done_after : option nat) (n : nat)
    : @State (stub done_after) :=
  @mkState (stub done_after) stub_heap n.

(** The script [Task(env, policies).run(num_steps, 0, utc, False)] against
    the stub, from a world left seven steps into an earlier episode: what
    [run] returns, and the state of the stub then. *)
Definition stub_episode (done_after : option nat) (policies : val)
    (fuel : nat) (num_steps : Z) (use_terminating_condition : bool)
    : option (run_value Z * nat) :=
  match @bind (stub done_after) _ _
          (@Task_new (stub done_after) (VRef the_env) policies)
          (λ self, @run (stub done_after) fuel self (Some num_steps)
                     use_terminating_condition false)
          (stub_state done_after 7)
  with
  | Ok v σ => Some (v, @world (stub done_after) σ)
  | _ => None
  end.

(** The store of the stub with a task, bound to the environment and to the
    list of the two policies, with the flags [d] and [s]. *)
Definition stub_task_state (done_after : option nat) (d s : bool) (n : nat)
    : @State (stub done_after) :=
  @mkState (stub done_after)
    (<[the_task := OTask (mkTask (VRef the_env) (VRef list_ab) d s)]> stub_heap) n.

(** ** Specification vocabulary *)

Section Vocabulary.
Context `{Collab}.

(** [self] is a task as [__init__] leaves one: bound to the environment
    [e] and to a sequence of the policies [ps]. *)
Definition valid_task (h : gmap loc obj) (self e : loc) (ps : list loc) : Prop :=
  ∃ t, h !! self = Some (OTask t)
     ∧ env t = VRef e
     ∧ h !! e = Some OEnv
     ∧ items h (policies t) = Some (VRef <$> ps)
     ∧ Forall (λ p, h !! p = Some OPolicy) ps.

(** The attributes of the task [self], if it is one. *)
Definition task_of (h : gmap loc obj) (self : loc) : option Task :=
  match h !! self with
  | Some (OTask t) => Some t
  | _ => None
  end.

(** The items of the sequence the task [self] stores as [self.policies]. *)
Definition stored_policies (h : gmap loc obj) (self : loc) : option (list val) :=
  match task_of h self with
  | Some t => items h (policies t)
  | None => None
  end.

(** One exchange of a step: the policy [p] acts on its states, the
    environment [e] steps with that action; what the environment reports
    (reward and done) and the world afterwards. *)
Definition exchange (e : loc) (deterministic : bool) (p : loc) (w : World)
    : Reward * bool * World :=
  let '(a, w1) := policy_act p (policy_states p w) deterministic w in
  let '(_, rew, d, _, w2) := env_step e a w1 in
  (rew, d, w2).

(** The exchanges of the policies [ps], in their order, from the world [w]. *)
Fixpoint exchanges (e : loc) (deterministic : bool) (ps : list loc) (w : World)
    : list (Reward * bool) * World :=
  match ps with
  | [] => ([], w)
  | p :: ps' =>
      let '(rew, d, w1) := exchange e deterministic p w in
      let '(log, w2) := exchanges e deterministic ps' w1 in
      ((rew, d) :: log, w2)
  end.

(** [k] calls of [step] in a row, and the reward vectors they return. *)
Fixpoint steps (k : nat) (self : loc) (render : bool) : M (list (list Reward)) :=
  match k with
  | 0 => ret []
  | S k' =>
      let* r := step self true render in
      let* rs := steps k' self render in
      ret (r :: rs)
  end.

(** The total of the policy number [i] over the reward vectors [rss], added
    up from zero in the order of the steps. *)
Definition total_of (i : nat) (rss : list (list Reward)) : Reward :=
  foldl radd rzero ((λ rs, nth i rs rzero) <$> rss).

(** The value of [run] for [n] policies whose steps returned [rss]. *)
Definition collapsed (n : nat) (rss : list (list Reward)) : run_value Reward :=
  if n =? 1 then Scalar (total_of 0 rss)
  else Vector ((λ i, total_of i rss) <$> seq 0 n).

(** The world after [reset]: the environment first, then the policies. *)
Definition reset_world (e : loc) (ps : list loc) (w : World) : World :=
  foldl (λ w p, policy_reset p w) (env_reset e w).2 ps.

End Vocabulary.

(** The store of the stub with a task of no policy, bound to the
    environment and to the empty list, with the flags [d] and [s]. *)
Definition stub_idle_task_state (done_after : option nat) (d s : bool) (n : nat)
    : @State (stub done_after) :=
  @mkState (stub done_after)
    (<[the_task := OTask (mkTask (VRef the_env) (VRef list_none) d s)]> stub_heap)
    n.

(** A second stub, whose environment takes back what it reported: every
    call of [env.step] is rewarded [1], and reports [done] when it is the
    first, the third, the fifth, ... call since the last [env.reset]. *)
Definition flip : Collab := {|
  World := nat;
  States := unit;
  Action := unit;
  Obs := unit;
  Info := unit;
  Reward := Z;
  rzero := 0%Z;
  radd := Z.add;
  env_reset := λ _ _, (tt, 0);
  env_step := λ _ _ n, ((tt, 1%Z, Nat.odd (S n), tt), S n);
  env_render := λ _ n, n;
  env_hide := λ _ n, n;
  policy_states := λ _ _, tt;
  policy_act := λ _ _ _ n, (tt, n);
  policy_reset := λ _ n, n;
  policy_model := λ _ _, VStr "model";
  policy_actions := λ _ _, VStr "actions"
|}.

(** The store of the stub with a task of the two policies, over [flip]. *)
Definition flip_task_state (d s : bool) (n : nat) : @State flip :=
  @mkState flip
    (<[the_task := OTask (mkTask (VRef the_env) (VRef list_ab) d s)]> stub_heap) n.

(** ** The getters of [Task] *)

Section Getters.
Context `{Collab}.

(** [v[idx]] for an integer [idx]: a negative index counts from the end,
    an index outside of the sequence raises [IndexError]. *)
Definition subscript (v : val) (idx : Z) : M val :=
  let* h := get_heap in
  match items h v with
  | Some xs =>
      let n := Z.of_nat (length xs) in
      let i := if (idx <? 0)%Z then (idx + n)%Z else idx in
      if ((i <? 0) || (n <=? i))%Z then raise IndexError
      else match xs !! Z.to_nat i with
           | Some x => ret x
           | None => raise IndexError
           end
  | None => raise TypeError
  end.

(** [self.get_policy(idx)], for [idx] an integer or [None]. *)
Definition get_policy (self : loc) (idx : option Z) : M val :=
  match idx with
  | None => let* t := get_task self in ret (policies t)
  | Some i => let* t := get_task self in subscript (policies t) i
  end.

(** [self.get_learning_model(idx)], for [idx] an integer or [None]. *)
Definition get_learning_model (self : loc) (idx : option Z) : M val :=
  match idx with
  | None =>
      let* t := get_task self in
      let* xs := iterate (policies t) in
      let* r := attr_of_each policy_model xs in
      let* l := alloc (OList r) in
      ret (VRef l)
  | Some i =>
      let* t := get_task self in
      let* x := subscript (policies t) i in
      let* p := as_Policy x in
      read_world (policy_model p)
  end.

End Getters.

(** ** [HalfCheetah.__init__], of [pyrobolearn/robots/half_cheetah.py] *)

Module HalfCheetah.

(** A number as it is written: an integer, or a decimal [mantissa / 10^digits]
    for a float literal ([0.1] is [Float 1 1], [0.] is [Float 0 0]).  The
    constructor computes with none of them. *)
Inductive num :=
| Int (z : Z)
| Float (mantissa : Z) (digits : nat).

(** A position or an orientation: a tuple or a list of numbers. *)
Inductive coords :=
| Tuple (xs : list num)
| List (xs : list num).

Definition items_of (c : coords) : list num :=
  match c with
  | Tuple xs => xs
  | List xs => xs
  end.

(** The arguments of the call [super().__init__(...)], in its order, and
    the [name] the robot gets after it. *)
Record robot := mkRobot {
  simulator : loc;
  urdf_path : string;
  init_pos : coords;
  init_orient : coords;
  useFixedBase : bool;
  scaling : num;
  name : string
}.

(** The default values of the signature; [dirname] is
    [os.path.dirname(__file__)]. *)
Definition default_init_pos : coords := Tuple [Float (-5) 1; Int 0; Float 1 1].
Definition default_init_orient : coords :=
  Tuple [Int 0; Float 707 3; Int 0; Float 707 3].
Definition default_useFixedBase : bool := false.
Definition default_scaling : num := Float 1 0.
Definition default_urdf_path (dirname : string) : string :=
  (dirname ++ "/mjcfs/half_cheetah.xml")%string.

(** [HalfCheetah.__init__(self, simulator, init_pos, init_orient,
    useFixedBase, scaling, urdf_path)], with [None] for an argument given as
    [None]. *)
Definition __init__ (simulator : loc) (init_pos init_orient : option coords)
    (useFixedBase : option bool) (scaling : num) (urdf_path : string) : robot :=
  (* check parameters *)
  let init_pos :=
    match init_pos with
    | None => Tuple [Float (-5) 1; Float 0 0; Float 1 1]
    | Some c => c
    end in
  let init_pos :=
    if length (items_of init_pos) =? 2   (* assume x, y are given *)
    then Tuple (items_of init_pos ++ [Float 1 1])
    else init_pos in
  let init_orient :=
    match init_orient with
    | None => Tuple [Int 0; Float 707 3; Int 0; Float 707 3]
    | Some c => c
    end in
  let useFixedBase :=
    match useFixedBase with
    | None => false
    | Some b => b
    end in
  mkRobot simulator urdf_path init_pos init_orient useFixedBase scaling
    "halfCheetah".

End HalfCheetah.

(** * Properties *)

Section Basics.
Context `{Collab}.

Lemma bind_Ok {A B} (m : M A) (k : A → M B) σ a σ' :
  m σ = Ok a σ' → bind m k σ = k a σ'.
Proof. unfold bind. by intros ->. Qed.

Lemma bind_Ok_inv {A B} (m : M A) (k : A → M B) σ b σ' :
  bind m k σ = Ok b σ' → ∃ a σ1, m σ = Ok a σ1 ∧ k a σ1 = Ok b σ'.
Proof. unfold bind. destruct (m σ); naive_solver. Qed.

Lemma bind_Ok_mono {A B} (m : M A) (k1 k2 : A → M B) σ b σ' :
  (∀ a σ1, k1 a σ1 = Ok b σ' → k2 a σ1 = Ok b σ') →
  bind m k1 σ = Ok b σ' → bind m k2 σ = Ok b σ'.
Proof. unfold bind. destruct (m σ); auto. Qed.

Lemma get_task_Ok σ self t :
  heap σ !! self = Some (OTask t) → get_task self σ = Ok t σ.
Proof. unfold get_task, bind, get_heap. by intros ->. Qed.

Lemma as_Env_Ok σ e :
  heap σ !! e = Some OEnv → as_Env (VRef e) σ = Ok e σ.
Proof.
  intros He. unfold as_Env, bind, get_heap, isinstance_Env. simpl. by rewrite He.
Qed.

Lemma as_Policy_Ok σ p :
  heap σ !! p = Some OPolicy → as_Policy (VRef p) σ = Ok p σ.
Proof.
  intros Hp. unfold as_Policy, bind, get_heap, isinstance_Policy. simpl.
  by rewrite Hp.
Qed.

Lemma iterate_Ok σ v xs :
  items (heap σ) v = Some xs → iterate v σ = Ok xs σ.
Proof. unfold iterate, bind, get_heap. by intros ->. Qed.

Lemma len_Ok σ v xs :
  items (heap σ) v = Some xs → len v σ = Ok (length xs) σ.
Proof. unfold len, bind, get_heap. by intros ->. Qed.

Lemma getitem_Ok σ v xs i x :
  items (heap σ) v = Some xs → xs !! i = Some x → getitem v i σ = Ok x σ.
Proof. unfold getitem, bind, get_heap. by intros -> ->. Qed.

(** Writing a flag of a task leaves every other object, and what the task
    is bound to, as they are. *)
Lemma items_insert_task h self t t' v :
  h !! self = Some (OTask t) →
  items (<[self := OTask t']> h) v = items h v.
Proof.
  intros Hs. destruct v as [| |s|l]; simpl; try done.
  destruct (decide (self = l)) as [<-|Hne].
  - by rewrite lookup_insert_eq, Hs.
  - by rewrite lookup_insert_ne.
Qed.

Lemma valid_task_insert h self e ps t t' :
  h !! self = Some (OTask t) →
  env t' = env t → policies t' = policies t →
  valid_task h self e ps →
  valid_task (<[self := OTask t']> h) self e ps.
Proof.
  intros Hs He Hp (t0 & Hs0 & He0 & Hc & Hi & Hps).
  assert (t0 = t) as -> by congruence.
  exists t'. split_and!.
  - apply lookup_insert_eq.
  - congruence.
  - rewrite lookup_insert_ne; [done|]. intros <-. congruence.
  - rewrite Hp. by rewrite (items_insert_task _ _ t).
  - eapply Forall_impl; [exact Hps|]. intros p Hpp. simpl in *.
    rewrite lookup_insert_ne; [done|]. intros <-. congruence.
Qed.

End Basics.

Section Step.
Context `{Collab}.

Lemma on_world_Ok {A} (f : World → A * World) σ :
  on_world f σ = Ok (f (world σ)).1 (mkState _ (heap σ) (f (world σ)).2).
Proof. unfold on_world. by destruct (f (world σ)). Qed.

Lemma set_done_Ok σ self t b :
  heap σ !! self = Some (OTask t) →
  set_done self b σ
  = Ok tt (mkState _ (<[self := OTask (mkTask (env t) (policies t) b (_succeeded t))]>
                        (heap σ)) (world σ)).
Proof. intros Hs. unfold set_done. by rewrite (bind_Ok _ _ _ _ _ (get_task_Ok _ _ _ Hs)). Qed.

Lemma set_succeeded_Ok σ self t b :
  heap σ !! self = Some (OTask t) →
  set_succeeded self b σ
  = Ok tt (mkState _ (<[self := OTask (mkTask (env t) (policies t) (_done t) b)]>
                        (heap σ)) (world σ)).
Proof.
  intros Hs. unfold set_succeeded.
  by rewrite (bind_Ok _ _ _ _ _ (get_task_Ok _ _ _ Hs)).
Qed.

Lemma exchange_eq e det p w :
  exchange e det p w
  = let aw := policy_act p (policy_states p w) det w in
    let r := env_step e aw.1 aw.2 in
    (r.1.1.1.2, r.1.1.2, r.2).
Proof.
  unfold exchange. destruct (policy_act _ _ _ _) as [a w1]. simpl.
  by destruct (env_step e a w1) as [[[[o r] d] i] w2].
Qed.

Lemma exchanges_cons e det p ps w :
  exchanges e det (p :: ps) w
  = let x := exchange e det p w in
    let r := exchanges e det ps x.2 in
    ((x.1.1, x.1.2) :: r.1, r.2).
Proof.
  simpl. destruct (exchange e det p w) as [[r d] w1]. simpl.
  by destruct (exchanges e det ps w1).
Qed.

Lemma exchanges_length e det ps w :
  length (exchanges e det ps w).1 = length ps.
Proof.
  revert w. induction ps as [|p ps IH]; intros w; [done|].
  rewrite exchanges_cons. simpl. by rewrite IH.
Qed.

Lemma exchanges_app e det ps1 ps2 w :
  exchanges e det (ps1 ++ ps2) w
  = let r1 := exchanges e det ps1 w in
    let r2 := exchanges e det ps2 r1.2 in
    (r1.1 ++ r2.1, r2.2).
Proof.
  revert w. induction ps1 as [|p ps1 IH]; intros w.
  - simpl. by destruct (exchanges e det ps2 w).
  - rewrite <-app_comm_cons, !exchanges_cons. simpl. by rewrite IH.
Qed.

Lemma default_last_cons {A} (d0 d : A) (l : list A) :
  default d0 (last (d :: l)) = default d (last l).
Proof. rewrite last_cons. by destruct (last l). Qed.

(** The loop of [step], from any point of it on: the rewards are appended
    in the order of the policies, and the flag [_done] of the task ends as
    the last report of the environment; nothing else of the store changes. *)
Lemma step_loop_spec self e det ps :
  ∀ σ t rewards,
    heap σ !! self = Some (OTask t) →
    env t = VRef e →
    heap σ !! e = Some OEnv →
    Forall (λ p, heap σ !! p = Some OPolicy) ps →
    let r := exchanges e det ps (world σ) in
    step_loop self det (VRef <$> ps) rewards σ
    = Ok (rewards ++ r.1.*1)
         (mkState _
            (<[self := OTask (mkTask (env t) (policies t)
                                (default (_done t) (last (r.1.*2)))
                                (_succeeded t))]> (heap σ))
            r.2).
Proof.
  induction ps as [|p ps IH]; intros σ t rewards Hs He Hc Hps.
  - simpl. unfold ret. rewrite app_nil_r. f_equal.
    destruct σ as [h w]; simpl in *. f_equal.
    symmetry. apply insert_id. rewrite Hs. by destruct t.
  - apply Forall_cons in Hps as [Hp Hps].
    cbn zeta. rewrite exchanges_cons. cbn zeta. rewrite exchange_eq. cbn zeta.
    rewrite fmap_cons. cbn [step_loop].
    rewrite (bind_Ok _ _ _ _ _ (as_Policy_Ok _ _ Hp)).
    unfold read_world at 1. unfold bind at 1.
    rewrite (bind_Ok _ _ _ _ _ (on_world_Ok _ _)).
    set (aw := policy_act p (policy_states p (world σ)) det (world σ)).
    erewrite bind_Ok; [|apply get_task_Ok; simpl; eassumption].
    erewrite bind_Ok; [|rewrite He; apply as_Env_Ok; simpl; eassumption].
    rewrite (bind_Ok _ _ _ _ _ (on_world_Ok _ _)). cbn [heap world].
    destruct (env_step e aw.1 aw.2) as [[[[o r] d] i] w2]. cbn [fst snd].
    erewrite bind_Ok; [|apply set_done_Ok; simpl; eassumption].
    erewrite (IH _ (mkTask (env t) (policies t) d (_succeeded t))); simpl; eauto.
    + rewrite insert_insert_eq, <-app_assoc. simpl.
      by rewrite default_last_cons.
    + apply lookup_insert_eq.
    + rewrite lookup_insert_ne; [done|]. intros <-. congruence.
    + eapply Forall_impl; [exact Hps|]. intros q Hq. simpl in *.
      rewrite lookup_insert_ne; [done|]. intros <-. congruence.
Qed.

End Step.

Section StepReset.
Context `{Collab}.

Lemma valid_task_lookup h self e ps :
  valid_task h self e ps → ∃ t, h !! self = Some (OTask t).
Proof. intros (t & ? & _). eauto. Qed.

(** One call of [step], in full. *)
Lemma step_spec σ self t e ps det (render : bool) :
  heap σ !! self = Some (OTask t) →
  valid_task (heap σ) self e ps →
  let w0 := if render then env_render e (world σ) else env_hide e (world σ) in
  let r := exchanges e det ps w0 in
  step self det render σ
  = Ok (r.1.*1)
       (mkState _
          (<[self := OTask (mkTask (env t) (policies t)
                              (default (_done t) (last (r.1.*2)))
                              (_succeeded t))]> (heap σ))
          r.2).
Proof.
  intros Hs (t0 & Hs0 & He & Hc & Hi & Hps) w0 r.
  assert (t0 = t) as -> by congruence.
  unfold step.
  rewrite (bind_Ok _ _ _ _ _ (get_task_Ok _ _ _ Hs)).
  erewrite bind_Ok; [|rewrite He; by apply as_Env_Ok].
  rewrite (bind_Ok _ _ _ _ _ (on_world_Ok _ _)). cbn [fst snd].
  erewrite bind_Ok; [|apply get_task_Ok; simpl; eassumption].
  erewrite bind_Ok; [|apply iterate_Ok; simpl; eassumption].
  by erewrite step_loop_spec.
Qed.

Lemma step_valid σ self e ps det render :
  valid_task (heap σ) self e ps →
  ∃ rs σ', step self det render σ = Ok rs σ'
         ∧ length rs = length ps
         ∧ valid_task (heap σ') self e ps.
Proof.
  intros Hv. destruct (valid_task_lookup _ _ _ _ Hv) as [t Hs].
  eexists _, _. split; [by eapply step_spec|]. split.
  - by rewrite length_fmap, exchanges_length.
  - simpl. by eapply valid_task_insert.
Qed.

Lemma reset_policies_Ok ps :
  ∀ σ, Forall (λ p, heap σ !! p = Some OPolicy) ps →
       reset_policies (VRef <$> ps) σ
       = Ok tt (mkState _ (heap σ) (foldl (λ w p, policy_reset p w) (world σ) ps)).
Proof.
  induction ps as [|p ps IH]; intros σ Hps.
  - by destruct σ.
  - apply Forall_cons in Hps as [Hp Hps]. rewrite fmap_cons. cbn [reset_policies].
    rewrite (bind_Ok _ _ _ _ _ (as_Policy_Ok _ _ Hp)).
    rewrite (bind_Ok _ _ _ _ _ (on_world_Ok _ _)). cbn [fst snd].
    by rewrite IH.
Qed.

(** One call of [reset], in full. *)
Lemma reset_spec σ self t e ps :
  heap σ !! self = Some (OTask t) →
  valid_task (heap σ) self e ps →
  reset self σ
  = Ok tt (mkState _
             (<[self := OTask (mkTask (env t) (policies t) false false)]> (heap σ))
             (reset_world e ps (world σ))).
Proof.
  intros Hs (t0 & Hs0 & He & Hc & Hi & Hps).
  assert (t0 = t) as -> by congruence.
  unfold reset.
  rewrite (bind_Ok _ _ _ _ _ (set_done_Ok _ _ _ _ Hs)).
  erewrite bind_Ok; [|apply set_succeeded_Ok; simpl; apply lookup_insert_eq].
  cbn [heap world env policies _done _succeeded]. rewrite insert_insert_eq.
  erewrite bind_Ok; [|apply get_task_Ok; simpl; apply lookup_insert_eq].
  cbn [env policies].
  erewrite bind_Ok; [|rewrite He; apply as_Env_Ok; simpl;
                      rewrite lookup_insert_ne; [done|intros <-; congruence]].
  rewrite (bind_Ok _ _ _ _ _ (on_world_Ok _ _)). cbn [fst snd heap world].
  erewrite bind_Ok; [|apply get_task_Ok; simpl; apply lookup_insert_eq].
  cbn [policies].
  erewrite bind_Ok;
    [|apply iterate_Ok; simpl; by rewrite (items_insert_task _ _ t)].
  rewrite reset_policies_Ok; [simpl; by rewrite He|]. simpl.
  eapply Forall_impl; [exact Hps|]. intros p Hp. simpl in *.
  rewrite lookup_insert_ne; [done|]. intros <-. congruence.
Qed.

Lemma done_Ok σ self t :
  heap σ !! self = Some (OTask t) → done self σ = Ok (_done t) σ.
Proof. intros Hs. unfold done. by rewrite (bind_Ok _ _ _ _ _ (get_task_Ok _ _ _ Hs)). Qed.

Lemma succeeded_Ok σ self t :
  heap σ !! self = Some (OTask t) → succeeded self σ = Ok (_succeeded t) σ.
Proof.
  intros Hs. unfold succeeded.
  by rewrite (bind_Ok _ _ _ _ _ (get_task_Ok _ _ _ Hs)).
Qed.

Lemma environment_Ok σ self t :
  heap σ !! self = Some (OTask t) → environment self σ = Ok (env t) σ.
Proof.
  intros Hs. unfold environment.
  by rewrite (bind_Ok _ _ _ _ _ (get_task_Ok _ _ _ Hs)).
Qed.

End StepReset.

Section Construction.
Context `{Collab}.

Lemma fresh_lookup (h : gmap loc obj) : h !! fresh (dom h) = None.
Proof. apply not_elem_of_dom, is_fresh. Qed.

Lemma isinstance_Env_insert_object h l v :
  h !! l = None → isinstance_Env (<[l := OObject]> h) v = isinstance_Env h v.
Proof.
  intros Hl. unfold isinstance_Env. destruct v as [| | |l']; simpl; auto.
  destruct (decide (l = l')) as [<-|Hne].
  - by rewrite lookup_insert_eq, Hl.
  - by rewrite lookup_insert_ne.
Qed.

Lemma isinstance_Policy_insert_object h l v :
  h !! l = None → isinstance_Policy (<[l := OObject]> h) v = isinstance_Policy h v.
Proof.
  intros Hl. unfold isinstance_Policy. destruct v as [| | |l']; simpl; auto.
  destruct (decide (l = l')) as [<-|Hne].
  - by rewrite lookup_insert_eq, Hl.
  - by rewrite lookup_insert_ne.
Qed.

Lemma items_insert_object h l v :
  h !! l = None → items (<[l := OObject]> h) v = items h v.
Proof.
  intros Hl. destruct v as [| | |l']; simpl; auto.
  destruct (decide (l = l')) as [<-|Hne].
  - by rewrite lookup_insert_eq, Hl.
  - by rewrite lookup_insert_ne.
Qed.

Lemma check_policies_eq h xs σ :
  check_policies h xs σ
  = if forallb (isinstance_Policy h) xs then Ok tt σ else Raise TypeError.
Proof.
  induction xs as [|x xs IH]; [done|]. simpl.
  destruct (isinstance_Policy h x); simpl; [exact IH|done].
Qed.

(** The call [Task(environment, policies)], in full: which arguments it
    accepts and the store it leaves.  The new task gets the identity
    [fresh (dom h)]; a single policy is put in a new list. *)
Lemma Task_new_spec σ environment policies :
  let h := heap σ in
  let self := fresh (dom h) in
  Task_new environment policies σ
  = if isinstance_Env h environment then
      match items h policies with
      | Some xs =>
          if forallb (isinstance_Policy h) xs then
            Ok self (mkState _
                       (<[self := OTask (mkTask environment policies false false)]> h)
                       (world σ))
          else Raise TypeError
      | None =>
          if isinstance_Policy h policies then
            let l := fresh (dom (<[self := OObject]> h)) in
            Ok self (mkState _
                       (<[self := OTask (mkTask environment (VRef l) false false)]>
                          (<[l := OList [policies]]> h))
                       (world σ))
          else Raise TypeError
      end
    else Raise TypeError.
Proof.
  intros h self. pose proof (fresh_lookup h) as Hf. fold self in Hf.
  unfold Task_new, alloc. unfold bind at 1. fold h self. cbn [heap world].
  unfold __init__. unfold bind at 1. unfold bind at 1. unfold get_heap. cbn [heap].
  rewrite isinstance_Env_insert_object by done.
  destruct (isinstance_Env h environment); [|done]. cbn [negb].
  unfold isinstance_Iterable, iterate.
  rewrite isinstance_Policy_insert_object by done.
  rewrite items_insert_object by done.
  destruct (items h policies) as [xs|] eqn:Hi.
  - unfold bind, get_heap, ret. cbn [heap]. rewrite items_insert_object, Hi by done.
    rewrite check_policies_eq.
    replace (forallb (isinstance_Policy (<[self:=OObject]> h)) xs)
      with (forallb (isinstance_Policy h) xs).
    2:{ clear Hi. induction xs as [|x xs IH]; [done|]. simpl.
        by rewrite IH, isinstance_Policy_insert_object. }
    destruct (forallb (isinstance_Policy h) xs); [|done].
    unfold set_task, upd_heap. cbn [heap world]. by rewrite insert_insert_eq.
  - destruct (isinstance_Policy h policies); [|done].
    unfold bind, alloc, ret, set_task, upd_heap. cbn [heap world].
    set (l := fresh (dom (<[self:=OObject]> h))).
    assert (l ≠ self) as Hne.
    { intros Heq. pose proof (fresh_lookup (<[self:=OObject]> h)) as Hl.
      fold l in Hl. rewrite Heq, lookup_insert_eq in Hl. done. }
    f_equal. f_equal.
    rewrite (insert_insert_ne _ l self) by done. by rewrite insert_insert_eq.
Qed.

End Construction.

(** * The claims about construction *)

Section ConstructionClaims.
Context `{Collab}.

Lemma forallb_false_elem {A} (f : A → bool) (xs : list A) :
  forallb f xs = false ↔ ∃ x, x ∈ xs ∧ f x = false.
Proof.
  induction xs as [|y xs IH]; simpl.
  - split; [done|]. intros (x & Hx & _). by apply elem_of_nil in Hx.
  - rewrite andb_false_iff, IH. split.
    + intros [Hy|(x & Hx & Hf)]; [exists y|exists x]; split; auto; by constructor.
    + intros (x & Hx & Hf). apply elem_of_cons in Hx as [->|Hx]; eauto.
Qed.

Lemma isinstance_Policy_not_iterable h v :
  isinstance_Policy h v = true → items h v = None.
Proof.
  unfold isinstance_Policy. destruct v as [| | |l]; simpl; try done.
  by destruct (h !! l) as [[]|].
Qed.

(** What a successful construction stores. *)
Lemma Task_new_Ok_inv σ environment policies self σ' :
  Task_new environment policies σ = Ok self σ' →
  let h := heap σ in
  self = fresh (dom h)
  ∧ world σ' = world σ
  ∧ isinstance_Env h environment = true
  ∧ ((∃ xs, items h policies = Some xs
          ∧ forallb (isinstance_Policy h) xs = true
          ∧ heap σ' = <[self := OTask (mkTask environment policies false false)]> h)
     ∨ (items h policies = None
        ∧ isinstance_Policy h policies = true
        ∧ let l := fresh (dom (<[self := OObject]> h)) in
          heap σ' = <[self := OTask (mkTask environment (VRef l) false false)]>
                      (<[l := OList [policies]]> h))).
Proof.
  rewrite Task_new_spec. cbn zeta. intros Hn.
  destruct (isinstance_Env (heap σ) environment); [|done].
  destruct (items (heap σ) policies) as [xs|].
  - destruct (forallb _ xs) eqn:Hxs; [|done]. inversion Hn; subst; clear Hn.
    split_and!; try done. left. eauto.
  - destruct (isinstance_Policy (heap σ) policies) eqn:Hp; [|done].
    inversion Hn; subst; clear Hn. split_and!; try done. by right.
Qed.

Lemma fresh_object_ne (h : gmap loc obj) :
  fresh (dom (<[fresh (dom h) := OObject]> h)) ≠ fresh (dom h).
Proof.
  intros Heq. pose proof (fresh_lookup (<[fresh (dom h) := OObject]> h)) as Hl.
  rewrite Heq, lookup_insert_eq in Hl. done.
Qed.

Lemma fresh_object_lookup (h : gmap loc obj) :
  h !! fresh (dom (<[fresh (dom h) := OObject]> h)) = None.
Proof.
  pose proof (fresh_lookup (<[fresh (dom h) := OObject]> h)) as Hl.
  rewrite lookup_insert_ne in Hl; [done|]. apply not_eq_sym, fresh_object_ne.
Qed.

Lemma items_insert_fresh h l o v xs :
  h !! l = None → items h v = Some xs → items (<[l := o]> h) v = Some xs.
Proof.
  intros Hl. destruct v as [| | |l']; simpl; try done.
  destruct (decide (l = l')) as [<-|Hne].
  - by rewrite Hl.
  - by rewrite lookup_insert_ne.
Qed.

Lemma isinstance_Policy_insert_fresh h l o v :
  h !! l = None → isinstance_Policy h v = true →
  isinstance_Policy (<[l := o]> h) v = true.
Proof.
  intros Hl. unfold isinstance_Policy. destruct v as [| | |l']; simpl; try done.
  destruct (decide (l = l')) as [<-|Hne].
  - by rewrite Hl.
  - by rewrite lookup_insert_ne.
Qed.

Lemma forallb_Policy_insert_fresh h l o xs :
  h !! l = None → forallb (isinstance_Policy h) xs = true →
  forallb (isinstance_Policy (<[l := o]> h)) xs = true.
Proof.
  intros Hl. induction xs as [|x xs IH]; [done|]. simpl.
  rewrite !andb_true_iff. intros [Hx Hxs]. split; [|auto].
  by apply isinstance_Policy_insert_fresh.
Qed.

(** What the new task stores as its policies. *)
Lemma Task_new_stored σ environment policies self σ' :
  Task_new environment policies σ = Ok self σ' →
  ∃ xs, stored_policies (heap σ') self = Some xs
      ∧ forallb (isinstance_Policy (heap σ')) xs = true
      ∧ xs = default [policies] (items (heap σ) policies).
Proof.
  intros Hn. apply Task_new_Ok_inv in Hn as (-> & _ & _ & Hcases).
  pose proof (fresh_lookup (heap σ)) as Hf.
  set (self := fresh (dom (heap σ))) in *.
  destruct Hcases as [(xs & Hi & Hall & ->)|(Hi & Hp & Hh)].
  - exists xs. rewrite Hi. split_and!; [|by apply forallb_Policy_insert_fresh|done].
    unfold stored_policies, task_of. rewrite lookup_insert_eq. simpl.
    by apply items_insert_fresh.
  - cbn zeta in Hh. rewrite Hh, Hi. clear Hh. exists [policies].
    pose proof (fresh_object_ne (heap σ)) as Hne.
    pose proof (fresh_object_lookup (heap σ)) as Hl. fold self in Hne, Hl.
    set (l := fresh (dom (<[self := OObject]> (heap σ)))) in *.
    split_and!; [| |done].
    + unfold stored_policies, task_of. rewrite lookup_insert_eq. simpl.
      rewrite lookup_insert_ne by (by apply not_eq_sym).
      by rewrite lookup_insert_eq.
    + simpl. rewrite andb_true_r.
      apply isinstance_Policy_insert_fresh.
      { rewrite lookup_insert_ne by done. done. }
      by apply isinstance_Policy_insert_fresh.
Qed.

Lemma forallb_Policy_refs h xs :
  forallb (isinstance_Policy h) xs = true →
  ∃ ps, xs = VRef <$> ps ∧ Forall (λ p, h !! p = Some OPolicy) ps.
Proof.
  induction xs as [|x xs IH]; simpl.
  - intros _. by exists [].
  - rewrite andb_true_iff. intros [Hx Hxs].
    destruct (IH Hxs) as (ps & -> & Hps).
    unfold isinstance_Policy in Hx. destruct x as [| | |p]; simpl in Hx; try done.
    destruct (h !! p) as [[]|] eqn:Hp; try done.
    exists (p :: ps). split; [done|]. by constructor.
Qed.

(** The tasks the constructor makes are the valid ones. *)
Lemma Task_new_valid σ environment policies self σ' :
  Task_new environment policies σ = Ok self σ' →
  ∃ e ps, environment = VRef e ∧ valid_task (heap σ') self e ps.
Proof.
  intros Hn. pose proof (Task_new_stored _ _ _ _ _ Hn) as (xs & Hst & Hall & _).
  apply Task_new_Ok_inv in Hn as (-> & _ & He & Hcases).
  pose proof (fresh_lookup (heap σ)) as Hf.
  set (self := fresh (dom (heap σ))) in *.
  unfold isinstance_Env in He.
  destruct environment as [| | |e]; simpl in He; try done.
  destruct (heap σ !! e) as [[]|] eqn:Hc; try done.
  assert (e ≠ self) as Hes by (intros ->; congruence).
  apply forallb_Policy_refs in Hall as (ps & -> & Hps).
  unfold stored_policies, task_of in Hst.
  destruct (heap σ' !! self) as [[| | |t|]|] eqn:Hs; try done.
  exists e, ps. split; [done|]. exists t. split_and!; try done.
  - destruct Hcases as [(ys & _ & _ & Hh)|(_ & _ & Hh)]; cbn zeta in Hh;
      rewrite Hh, lookup_insert_eq in Hs; by inversion Hs.
  - destruct Hcases as [(ys & _ & _ & ->)|(_ & _ & Hh)].
    + by rewrite lookup_insert_ne.
    + cbn zeta in Hh. rewrite Hh. rewrite lookup_insert_ne by done.
      destruct (decide (fresh (dom (<[self := OObject]> (heap σ))) = e))
        as [Heq|Hne]; [|by rewrite lookup_insert_ne].
      pose proof (fresh_object_lookup (heap σ)) as Hl. fold self in Hl.
      rewrite Heq in Hl. congruence.
Qed.


(** C6: the constructor raises [TypeError] exactly for an [environment]
    that is no [Env], for an iterable with an item that is no [Policy], and
    for something neither iterable nor a [Policy]; it raises nothing else;
    a single policy is accepted and stored as a list of one item, an
    iterable of policies is accepted and stored as it is. *)
Theorem Task_new_TypeError_iff σ environment policies :
  let h := heap σ in
  (Task_new environment policies σ = Raise TypeError ↔
     isinstance_Env h environment = false
     ∨ (isinstance_Iterable h policies = true
        ∧ ∃ xs x, items h policies = Some xs ∧ x ∈ xs
                  ∧ isinstance_Policy h x = false)
     ∨ (isinstance_Iterable h policies = false
        ∧ isinstance_Policy h policies = false))
  ∧ (∀ e, Task_new environment policies σ = Raise e → e = TypeError)
  ∧ Task_new environment policies σ ≠ OutOfFuel
  ∧ (isinstance_Env h environment = true →
     isinstance_Policy h policies = true →
     ∃ self σ', Task_new environment policies σ = Ok self σ'
              ∧ stored_policies (heap σ') self = Some [policies])
  ∧ (∀ xs, isinstance_Env h environment = true →
           items h policies = Some xs →
           forallb (isinstance_Policy h) xs = true →
           ∃ self σ', Task_new environment policies σ = Ok self σ'
                    ∧ task_of (heap σ') self
                      = Some (mkTask environment policies false false)
                    ∧ stored_policies (heap σ') self = Some xs).
Proof.
  intros h. pose proof (Task_new_spec σ environment policies) as Hspec.
  cbn zeta in Hspec. fold h in Hspec. unfold isinstance_Iterable.
  split_and!.
  - rewrite Hspec. destruct (isinstance_Env h environment).
    + destruct (items h policies) as [xs|].
      * destruct (forallb (isinstance_Policy h) xs) eqn:Hall.
        -- split; [done|]. intros [?|[(_ & xs' & x & Hxs & Hx & Hp)|[? _]]]; try done.
           assert (forallb (isinstance_Policy h) xs = false); [|congruence].
           apply forallb_false_elem. naive_solver.
        -- split; [|done]. intros _. right. left. split; [done|].
           apply forallb_false_elem in Hall as (x & Hx & Hp). eauto.
      * destruct (isinstance_Policy h policies).
        -- split; [done|]. intros [?|[[? _]|[_ ?]]]; done.
        -- split; [|done]. intros _. right. by right.
    + split; [|done]. intros _. by left.
  - intros e. rewrite Hspec.
    destruct (isinstance_Env h environment); [|congruence].
    destruct (items h policies) as [xs|].
    + destruct (forallb (isinstance_Policy h) xs); congruence.
    + destruct (isinstance_Policy h policies); cbn zeta; congruence.
  - rewrite Hspec.
    destruct (isinstance_Env h environment); [|done].
    destruct (items h policies) as [xs|].
    + by destruct (forallb (isinstance_Policy h) xs).
    + by destruct (isinstance_Policy h policies).
  - intros He Hp.
    assert (∃ self σ', Task_new environment policies σ = Ok self σ')
      as (self & σ' & Hn).
    { rewrite Hspec, He, (isinstance_Policy_not_iterable _ _ Hp), Hp.
      cbn zeta. eauto. }
    exists self, σ'. split; [done|].
    apply Task_new_stored in Hn as (xs & Hst & _ & Hxs).
    rewrite Hst, Hxs. fold h. by rewrite (isinstance_Policy_not_iterable _ _ Hp).
  - intros xs He Hi Hall. rewrite Hspec, He, Hi, Hall. do 2 eexists.
    split; [done|]. simpl. pose proof (fresh_lookup h) as Hf.
    unfold stored_policies, task_of. rewrite lookup_insert_eq. simpl.
    split; [done|]. by apply items_insert_fresh.
Qed.

End ConstructionClaims.

(** * The claims about [reset] and about cloning *)

Section ResetCopyClaims.
Context `{Collab}.

(** C7: after [reset] the flags [done] and [succeeded] are false, and a
    second [reset] right after the first leaves the same flags: the store
    after the two calls is the store after one (the task fails, as it does
    after one). *)
Theorem reset_idempotent_flags σ self e ps :
  valid_task (heap σ) self e ps →
  ∃ σ1 σ2,
    reset self σ = Ok tt σ1
    ∧ done self σ1 = Ok false σ1
    ∧ succeeded self σ1 = Ok false σ1
    ∧ reset self σ1 = Ok tt σ2
    ∧ done self σ2 = Ok false σ2
    ∧ succeeded self σ2 = Ok false σ2
    ∧ failed self σ2 = Ok true σ2
    ∧ heap σ2 = heap σ1.
Proof.
  intros Hv. destruct (valid_task_lookup _ _ _ _ Hv) as [t Hs].
  set (t1 := mkTask (env t) (policies t) false false).
  set (σ1 := mkState _ (<[self := OTask t1]> (heap σ)) (reset_world e ps (world σ))).
  assert (heap σ1 !! self = Some (OTask t1)) as Hs1 by apply lookup_insert_eq.
  assert (valid_task (heap σ1) self e ps) as Hv1
    by (by apply (valid_task_insert _ _ _ _ t)).
  set (σ2 := mkState _ (<[self := OTask t1]> (heap σ1)) (reset_world e ps (world σ1))).
  assert (heap σ2 !! self = Some (OTask t1)) as Hs2 by apply lookup_insert_eq.
  exists σ1, σ2. split_and!.
  - by apply reset_spec.
  - by rewrite (done_Ok _ _ t1).
  - by rewrite (succeeded_Ok _ _ t1).
  - by rewrite (reset_spec _ _ t1 e ps).
  - by rewrite (done_Ok _ _ t1).
  - by rewrite (succeeded_Ok _ _ t1).
  - unfold failed. by rewrite (bind_Ok _ _ _ _ _ (succeeded_Ok _ _ t1 Hs2)).
  - simpl. apply insert_insert_eq.
Qed.

Lemma valid_task_forallb h self e ps :
  valid_task h self e ps → forallb (isinstance_Policy h) (VRef <$> ps) = true.
Proof.
  intros (t & _ & _ & _ & _ & Hps). induction Hps as [|p ps Hp _ IH]; [done|].
  rewrite fmap_cons. cbn [forallb].
  rewrite IH, andb_true_r. unfold isinstance_Policy. simpl. by rewrite Hp.
Qed.

(** A shallow copy, in full: one new object, the task, built by the
    constructor from the attributes of the original. *)
Lemma Task_copy_spec σ self t e ps :
  heap σ !! self = Some (OTask t) →
  valid_task (heap σ) self e ps →
  __copy__ self σ
  = Ok (fresh (dom (heap σ)))
       (mkState _
          (<[fresh (dom (heap σ)) := OTask (mkTask (env t) (policies t) false false)]>
             (heap σ))
          (world σ)).
Proof.
  intros Hs Hv. pose proof (valid_task_forallb _ _ _ _ Hv) as Hall.
  destruct Hv as (t0 & Hs0 & He & Hc & Hi & Hps).
  assert (t0 = t) as -> by congruence.
  unfold __copy__.
  rewrite (bind_Ok _ _ _ _ _ (environment_Ok _ _ _ Hs)).
  rewrite (bind_Ok _ _ _ _ _ (get_task_Ok _ _ _ Hs)).
  rewrite Task_new_spec. cbn zeta. rewrite Hi, Hall.
  unfold isinstance_Env. rewrite He. simpl. by rewrite Hc.
Qed.

(** C9: the shallow copy of a task is a new task, bound to the very
    environment and to the very sequence of policies of the original; no
    environment, policy or list is made, and the world is untouched. *)
Theorem Task_copy_shares σ self t e ps :
  heap σ !! self = Some (OTask t) →
  valid_task (heap σ) self e ps →
  ∃ c σ',
    __copy__ self σ = Ok c σ'
    ∧ c ≠ self ∧ heap σ !! c = None
    ∧ environment c σ' = Ok (VRef e) σ'
    ∧ environment self σ' = Ok (VRef e) σ'
    ∧ (∃ tc, task_of (heap σ') c = Some tc
             ∧ env tc = env t ∧ policies tc = policies t)
    ∧ stored_policies (heap σ') c = Some (VRef <$> ps)
    ∧ stored_policies (heap σ') self = Some (VRef <$> ps)
    ∧ (∀ l, l ≠ c → heap σ' !! l = heap σ !! l)
    ∧ world σ' = world σ.
Proof.
  intros Hs Hv. pose proof (fresh_lookup (heap σ)) as Hf.
  rewrite (Task_copy_spec _ _ _ _ _ Hs Hv).
  destruct Hv as (t0 & Hs0 & He & Hc & Hi & Hps).
  assert (t0 = t) as -> by congruence.
  set (c := fresh (dom (heap σ))) in *.
  assert (c ≠ self) as Hne by (intros Heq; congruence).
  do 2 eexists. split; [done|]. cbn [heap world].
  unfold stored_policies, task_of. split_and!; try done.
  - erewrite environment_Ok; [|simpl; apply lookup_insert_eq].
    simpl. by rewrite He.
  - erewrite environment_Ok; [|simpl; by rewrite lookup_insert_ne].
    by rewrite He.
  - rewrite lookup_insert_eq. eauto.
  - rewrite lookup_insert_eq. simpl. by apply items_insert_fresh.
  - rewrite lookup_insert_ne, Hs by done. by apply items_insert_fresh.
  - intros l Hl. by rewrite lookup_insert_ne.
Qed.

(** C10: whatever the flags of the original, those of its shallow copy are
    false, and the copy fails; the flags of the original stay as they were. *)
Theorem Task_copy_flags σ self t e ps :
  heap σ !! self = Some (OTask t) →
  valid_task (heap σ) self e ps →
  ∃ c σ',
    __copy__ self σ = Ok c σ'
    ∧ done c σ' = Ok false σ'
    ∧ succeeded c σ' = Ok false σ'
    ∧ done self σ' = Ok (_done t) σ'
    ∧ succeeded self σ' = Ok (_succeeded t) σ'.
Proof.
  intros Hs Hv. pose proof (fresh_lookup (heap σ)) as Hf.
  rewrite (Task_copy_spec _ _ _ _ _ Hs Hv).
  set (c := fresh (dom (heap σ))) in *.
  assert (c ≠ self) as Hne by (intros Heq; congruence).
  do 2 eexists. split; [done|]. split_and!.
  - by erewrite done_Ok; [|simpl; apply lookup_insert_eq].
  - by erewrite succeeded_Ok; [|simpl; apply lookup_insert_eq].
  - by erewrite done_Ok; [|simpl; by rewrite lookup_insert_ne].
  - by erewrite succeeded_Ok; [|simpl; by rewrite lookup_insert_ne].
Qed.

End ResetCopyClaims.

(** * The claims about [step] *)

Section StepClaims.
Context `{Collab}.

Lemma exchanges_lookup e det ps w i p :
  ps !! i = Some p →
  (exchanges e det ps w).1 !! i
  = Some (exchange e det p (exchanges e det (take i ps) w).2).1.
Proof.
  intros Hi. pose proof (take_drop_middle _ _ _ Hi) as Hsplit.
  rewrite <-Hsplit at 1. rewrite exchanges_app. cbn zeta. cbn [fst].
  assert (length (exchanges e det (take i ps) w).1 = i) as Hlen.
  { rewrite exchanges_length, length_take. apply lookup_lt_Some in Hi. lia. }
  rewrite lookup_app_r by lia. rewrite Hlen, Nat.sub_diag.
  rewrite exchanges_cons. cbn zeta. simpl.
  by destruct (exchange e det p _) as [[r d] w'].
Qed.

(** C3: a step of a task with [N] policies returns [N] rewards, and the
    one at the index [i] is the reward the environment returned for the
    action of the policy at the index [i], the policies taking their turns
    in the order of the sequence. *)
Theorem step_rewards_per_policy σ self e ps det (render : bool) :
  valid_task (heap σ) self e ps →
  let w0 := if render then env_render e (world σ) else env_hide e (world σ) in
  ∃ rewards σ',
    step self det render σ = Ok rewards σ'
    ∧ length rewards = length ps
    ∧ ∀ i p, ps !! i = Some p →
        rewards !! i
        = Some (exchange e det p (exchanges e det (take i ps) w0).2).1.1.
Proof.
  intros Hv w0. destruct (valid_task_lookup _ _ _ _ Hv) as [t Hs].
  rewrite (step_spec _ _ _ _ _ det render Hs Hv). fold w0.
  do 2 eexists. split; [done|]. split.
  - by rewrite length_fmap, exchanges_length.
  - intros i p Hi. rewrite list_lookup_fmap.
    by rewrite (exchanges_lookup _ _ _ _ _ _ Hi).
Qed.

Lemma exchanges_snoc_log e det ps p w :
  (exchanges e det (ps ++ [p]) w).1
  = (exchanges e det ps w).1 ++ [(exchange e det p (exchanges e det ps w).2).1].
Proof.
  rewrite exchanges_app. cbn zeta. cbn [fst]. f_equal.
  rewrite exchanges_cons. cbn zeta. cbn [exchanges fst].
  by destruct (exchange e det p _) as [[r d] w'].
Qed.

Lemma default_last_app {A} (d0 : A) (l1 l2 : list A) :
  default (default d0 (last l1)) (last l2) = default d0 (last (l1 ++ l2)).
Proof.
  destruct l2 as [|x l2 _] using rev_ind.
  - by rewrite app_nil_r.
  - by rewrite app_assoc, !last_snoc.
Qed.

(** C5: in a step the flag [_done] is written once per policy, in their
    order, with what the environment reported for the action of that
    policy: when the loop has gone through the policies up to [p], the flag
    is the report for [p], and the rest of the step goes on from there; so
    after the step the flag is the report for the last policy. *)
Theorem step_done_overwritten σ self e ps1 p ps2 det (render : bool) :
  valid_task (heap σ) self e (ps1 ++ p :: ps2) →
  let w0 := if render then env_render e (world σ) else env_hide e (world σ) in
  let d := (exchange e det p (exchanges e det ps1 w0).2).1.2 in
  (∃ rewards1 σ1,
     step_loop self det (VRef <$> ps1 ++ [p]) [] (mkState _ (heap σ) w0)
     = Ok rewards1 σ1
     ∧ done self σ1 = Ok d σ1
     ∧ step self det render σ = step_loop self det (VRef <$> ps2) rewards1 σ1)
  ∧ (ps2 = [] →
     ∃ rewards σ', step self det render σ = Ok rewards σ'
                 ∧ done self σ' = Ok d σ').
Proof.
  intros Hv w0 d. destruct (valid_task_lookup _ _ _ _ Hv) as [t Hs].
  pose proof (step_spec _ _ _ _ _ det render Hs Hv) as Hstep.
  cbn zeta in Hstep. fold w0 in Hstep.
  destruct Hv as (t0 & Hs0 & He & Hc & Hi & Hps).
  assert (t0 = t) as -> by congruence.
  apply Forall_app in Hps as [Hps1 Hps2].
  apply Forall_cons in Hps2 as [Hp Hps2].
  assert (Forall (λ q, heap σ !! q = Some OPolicy) (ps1 ++ [p])) as Hps1p.
  { apply Forall_app. split; [done|]. by constructor. }
  pose proof (step_loop_spec self e det (ps1 ++ [p]) (mkState _ (heap σ) w0) t []
                Hs He Hc Hps1p) as Hloop1.
  cbn zeta in Hloop1. cbn [heap world] in Hloop1.
  set (r1 := exchanges e det (ps1 ++ [p]) w0) in *.
  assert (last (r1.1.*2) = Some d) as Hlast.
  { unfold r1. rewrite exchanges_snoc_log, fmap_app.
    change (snd <$> [?x]) with [snd x]. by rewrite last_snoc. }
  rewrite Hlast in Hloop1. simpl in Hloop1.
  set (t1 := mkTask (env t) (policies t) d (_succeeded t)) in *.
  set (σ1 := mkState _ (<[self := OTask t1]> (heap σ)) r1.2) in *.
  assert (heap σ1 !! self = Some (OTask t1)) as Hs1 by apply lookup_insert_eq.
  assert (step self det render σ
          = step_loop self det (VRef <$> ps2) (r1.1.*1) σ1) as Hrest.
  { rewrite Hstep.
    erewrite (step_loop_spec self e det ps2 σ1 t1); [|done|done| |].
    - cbn zeta. cbn [heap world σ1 t1 env policies _done _succeeded].
      rewrite insert_insert_eq.
      replace (ps1 ++ p :: ps2) with ((ps1 ++ [p]) ++ ps2)
        by (by rewrite <-app_assoc).
      rewrite exchanges_app. cbn zeta. fold r1. cbn [fst snd].
      rewrite !fmap_app. rewrite <-default_last_app. by rewrite Hlast.
    - simpl. rewrite lookup_insert_ne; [done|]. intros <-. congruence.
    - eapply Forall_impl; [exact Hps2|]. intros q Hq. simpl in *.
      rewrite lookup_insert_ne; [done|]. intros <-. congruence. }
  split.
  - exists (r1.1.*1), σ1. split_and!; [done| |done].
    by rewrite (done_Ok _ _ t1).
  - intros ->. rewrite Hrest. simpl. unfold ret. do 2 eexists. split; [done|].
    by rewrite (done_Ok _ _ t1).
Qed.

End StepClaims.

(** * The claim about the accessors *)

Section AccessorClaims.
Context `{Collab}.

Lemma attr_of_each_Ok attr ps :
  ∀ σ, Forall (λ p, heap σ !! p = Some OPolicy) ps →
       attr_of_each attr (VRef <$> ps) σ
       = Ok ((λ p, attr p (world σ)) <$> ps) σ.
Proof.
  induction ps as [|p ps IH]; intros σ Hps; [done|].
  apply Forall_cons in Hps as [Hp Hps]. rewrite !fmap_cons. cbn [attr_of_each].
  rewrite (bind_Ok _ _ _ _ _ (as_Policy_Ok _ _ Hp)).
  unfold read_world at 1. unfold bind at 1.
  by rewrite (bind_Ok _ _ _ _ _ (IH _ Hps)).
Qed.

(** The accessors [learning_model] and [actions], in full. *)
Lemma collapsed_attr_spec attr σ self e ps :
  valid_task (heap σ) self e ps →
  collapsed_attr attr self σ
  = match ps with
    | [p] => Ok (attr p (world σ)) σ
    | _ => Ok (VRef (fresh (dom (heap σ))))
              (mkState _
                 (<[fresh (dom (heap σ)) := OList ((λ p, attr p (world σ)) <$> ps)]>
                    (heap σ))
                 (world σ))
    end.
Proof.
  intros (t & Hs & He & Hc & Hi & Hps). unfold collapsed_attr.
  rewrite (bind_Ok _ _ _ _ _ (get_task_Ok _ _ _ Hs)).
  rewrite (bind_Ok _ _ _ _ _ (len_Ok _ _ _ Hi)). rewrite length_fmap.
  destruct ps as [|p [|q ps]].
  - cbn [length Nat.eqb].
    rewrite (bind_Ok _ _ _ _ _ (get_task_Ok _ _ _ Hs)).
    by rewrite (bind_Ok _ _ _ _ _ (iterate_Ok _ _ _ Hi)).
  - cbn [length Nat.eqb].
    erewrite bind_Ok; [|by eapply getitem_Ok].
    apply Forall_cons in Hps as [Hp _].
    by rewrite (bind_Ok _ _ _ _ _ (as_Policy_Ok _ _ Hp)).
  - cbn [length Nat.eqb].
    rewrite (bind_Ok _ _ _ _ _ (get_task_Ok _ _ _ Hs)).
    rewrite (bind_Ok _ _ _ _ _ (iterate_Ok _ _ _ Hi)).
    by rewrite (bind_Ok _ _ _ _ _ (attr_of_each_Ok _ _ _ Hps)).
Qed.

(** The accessor [policy], in full. *)
Lemma policy_spec σ self t e ps :
  heap σ !! self = Some (OTask t) →
  valid_task (heap σ) self e ps →
  policy self σ
  = match ps with
    | [p] => Ok (VRef p) σ
    | _ => Ok (policies t) σ
    end.
Proof.
  intros Hs (t0 & Hs0 & He & Hc & Hi & Hps).
  assert (t0 = t) as -> by congruence. unfold policy.
  rewrite (bind_Ok _ _ _ _ _ (get_task_Ok _ _ _ Hs)).
  rewrite (bind_Ok _ _ _ _ _ (len_Ok _ _ _ Hi)). rewrite length_fmap.
  destruct ps as [|p [|q ps]]; cbn [length Nat.eqb]; try done.
  by erewrite getitem_Ok.
Qed.

(** C8: with exactly one policy, [policy], [actions] and [learning_model]
    return the policy, its action space and its model themselves; with two
    or more policies each returns a sequence with one item per policy (the
    stored sequence of the policies, a list of the action spaces, a list of
    the models, in the order of the policies). *)
Theorem accessors_collapse_singleton σ self e ps :
  valid_task (heap σ) self e ps →
  (∀ p, ps = [p] →
        policy self σ = Ok (VRef p) σ
        ∧ actions self σ = Ok (policy_actions p (world σ)) σ
        ∧ learning_model self σ = Ok (policy_model p (world σ)) σ)
  ∧ (2 ≤ length ps →
     (∃ v, policy self σ = Ok v σ
           ∧ items (heap σ) v = Some (VRef <$> ps)
           ∧ len v σ = Ok (length ps) σ)
     ∧ (∃ v σ', actions self σ = Ok v σ'
           ∧ items (heap σ') v = Some ((λ p, policy_actions p (world σ)) <$> ps)
           ∧ len v σ' = Ok (length ps) σ')
     ∧ (∃ v σ', learning_model self σ = Ok v σ'
           ∧ items (heap σ') v = Some ((λ p, policy_model p (world σ)) <$> ps)
           ∧ len v σ' = Ok (length ps) σ')).
Proof.
  intros Hv. destruct (valid_task_lookup _ _ _ _ Hv) as [t Hs].
  pose proof (policy_spec _ _ _ _ _ Hs Hv) as Hpol.
  pose proof (collapsed_attr_spec policy_actions _ _ _ _ Hv) as Hact.
  pose proof (collapsed_attr_spec policy_model _ _ _ _ Hv) as Hmod.
  fold (actions self) in Hact. fold (learning_model self) in Hmod.
  split.
  - by intros p ->.
  - intros Hlen. destruct Hv as (t0 & Hs0 & He & Hc & Hi & Hps).
    assert (t0 = t) as -> by congruence.
    destruct ps as [|p [|q ps]]; simpl in Hlen; try lia.
    split_and!.
    + exists (policies t). split_and!; [done|done|].
      erewrite len_Ok by done. by rewrite length_fmap.
    + do 2 eexists. split; [exact Hact|].
      assert (∀ xs, items (<[fresh (dom (heap σ)) := OList xs]> (heap σ))
                      (VRef (fresh (dom (heap σ)))) = Some xs) as Hnew.
      { intros xs. simpl. by rewrite lookup_insert_eq. }
      split; [apply Hnew|].
      erewrite len_Ok by apply Hnew. by rewrite length_fmap.
    + do 2 eexists. split; [exact Hmod|].
      assert (∀ xs, items (<[fresh (dom (heap σ)) := OList xs]> (heap σ))
                      (VRef (fresh (dom (heap σ)))) = Some xs) as Hnew.
      { intros xs. simpl. by rewrite lookup_insert_eq. }
      split; [apply Hnew|].
      erewrite len_Ok by apply Hnew. by rewrite length_fmap.
Qed.

End AccessorClaims.

(** * The claims about [run] *)

Section Run.
Context `{Collab}.

Lemma np_iadd_Ok total rewards σ :
  length rewards = length total →
  np_iadd total rewards σ = Ok (zip_with radd total rewards) σ.
Proof. intros Hl. unfold np_iadd. by rewrite Hl, Nat.eqb_refl. Qed.

Lemma steps_S_inv k self render σ rs σ1 rss σ' :
  step self true render σ = Ok rs σ1 →
  steps (S k) self render σ = Ok rss σ' →
  ∃ rss', steps k self render σ1 = Ok rss' σ' ∧ rss = rs :: rss'.
Proof.
  intros Hstep. cbn [steps]. rewrite (bind_Ok _ _ _ _ _ Hstep).
  intros Hk. apply bind_Ok_inv in Hk as (rss' & σ2 & Hk & Hret).
  inversion Hret; subst. eauto.
Qed.

(** The loop of [run] under a bound [n] on the counter, from any point of
    it on: it makes [m] steps, at most the [k] steps that remain, adding
    their rewards into the totals.  It stops before the bound only under
    the terminating condition and only after a step that left the task
    done, and under that condition no earlier step has left it done. *)
Lemma run_loop_spec self e ps (n : Z) utc render :
  ∀ k fuel t total σ,
    valid_task (heap σ) self e ps →
    length total = length ps →
    Z.to_nat (n - Z.of_nat t) = k →
    k < fuel →
    ∃ m rss σ',
      m ≤ k
      ∧ steps m self render σ = Ok rss σ'
      ∧ run_loop fuel self (Some n) utc render t total σ
        = Ok (foldl (zip_with radd) total rss) σ'
      ∧ valid_task (heap σ') self e ps
      ∧ length rss = m
      ∧ Forall (λ rs, length rs = length ps) rss
      ∧ (utc = false → m = k)
      ∧ (m < k → done self σ' = Ok true σ')
      ∧ (utc = true → ∀ j rsj σj,
           0 < j < m → steps j self render σ = Ok rsj σj →
           done self σj = Ok false σj).
Proof.
  induction k as [|k IH]; intros fuel t total σ Hv Hlen Hk Hfuel;
    (destruct fuel as [|fuel]; [lia|]); cbn [run_loop].
  - assert ((n <=? Z.of_nat t)%Z = true) as -> by (apply Z.leb_le; lia).
    exists 0, [], σ. split_and!; [lia|done|done|done|done|done|done|lia|].
    intros _ j rsj σj Hj. lia.
  - assert ((n <=? Z.of_nat t)%Z = false) as -> by (apply Z.leb_gt; lia).
    destruct (step_valid _ _ _ _ true render Hv) as (rs & σ1 & Hstep & Hrs & Hv1).
    rewrite (bind_Ok _ _ _ _ _ Hstep).
    rewrite (bind_Ok _ _ _ _ _ (np_iadd_Ok _ _ _ (eq_trans Hrs (eq_sym Hlen)))).
    destruct (valid_task_lookup _ _ _ _ Hv1) as [t1 Hs1].
    assert ((if utc then (let* task := get_task self in ret (_done task))
             else ret false) σ1 = Ok (utc && _done t1) σ1) as Hread.
    { destruct utc; [|done]. by rewrite (bind_Ok _ _ _ _ _ (get_task_Ok _ _ _ Hs1)). }
    rewrite (bind_Ok _ _ _ _ _ Hread).
    destruct (utc && _done t1) eqn:Hstop.
    + apply andb_true_iff in Hstop as [-> Hd].
      assert (done self σ1 = Ok true σ1) as Hdone
        by (by rewrite (done_Ok _ _ _ Hs1), Hd).
      exists 1, [rs], σ1. split_and!.
      * lia.
      * cbn [steps]. by rewrite (bind_Ok _ _ _ _ _ Hstep).
      * done.
      * done.
      * done.
      * by repeat constructor.
      * done.
      * done.
      * intros _ j rsj σj Hj. lia.
    + destruct (IH fuel (S t) (zip_with radd total rs) σ1)
        as (m & rss & σ' & Hm & Hsteps & Hloop & Hv' & Hlrss & Hall & Hfull
            & Hearly & Hmid); try done; try lia.
      { rewrite length_zip_with. lia. }
      exists (S m), (rs :: rss), σ'. split_and!.
      * lia.
      * cbn [steps]. rewrite (bind_Ok _ _ _ _ _ Hstep).
        by rewrite (bind_Ok _ _ _ _ _ Hsteps).
      * done.
      * done.
      * simpl. lia.
      * by constructor.
      * intros Hu. rewrite (Hfull Hu). done.
      * intros Hlt. apply Hearly. lia.
      * intros -> j rsj σj Hj Hsj. destruct j as [|j]; [lia|].
        destruct (steps_S_inv _ _ _ _ _ _ _ _ Hstep Hsj) as (rss' & Hsj' & ->).
        destruct j as [|j].
        -- inversion Hsj'; subst. rewrite (done_Ok _ _ _ Hs1).
           simpl in Hstop. by rewrite Hstop.
        -- eapply Hmid; [done| |exact Hsj']. lia.
Qed.

Lemma foldl_zip_with_lookup rss :
  ∀ total i ti,
    Forall (λ rs, length rs = length total) rss →
    total !! i = Some ti →
    foldl (zip_with radd) total rss !! i
    = Some (foldl radd ti ((λ rs, nth i rs rzero) <$> rss)).
Proof.
  induction rss as [|rs rss IH]; intros total i ti Hall Hi; [done|].
  apply Forall_cons in Hall as [Hrs Hall]. rewrite fmap_cons. cbn [foldl].
  apply IH.
  - eapply Forall_impl; [exact Hall|]. intros rs' Hrs'. simpl in *.
    rewrite length_zip_with. lia.
  - rewrite lookup_zip_with, Hi. simpl.
    assert (i < length rs) as Hlt by (apply lookup_lt_Some in Hi; lia).
    destruct (nth_lookup_or_length rs i rzero) as [->|?]; [done|lia].
Qed.

(** The totals [run] ends with, policy by policy. *)
Lemma foldl_zip_with_totals n rss :
  Forall (λ rs, length rs = n) rss →
  foldl (zip_with radd) (replicate n rzero) rss
  = (λ i, total_of i rss) <$> seq 0 n.
Proof.
  intros Hall.
  assert (length (foldl (zip_with radd) (replicate n rzero) rss) = n) as Hlen.
  { assert (∀ total : list Reward, length total = n →
              length (foldl (zip_with radd) total rss) = n) as Hgen.
    { clear -Hall. induction Hall as [|rs rss Hrs _ IH]; intros total Ht; [done|].
      simpl. apply IH. rewrite length_zip_with. lia. }
    apply Hgen, length_replicate. }
  apply list_eq. intros i. rewrite list_lookup_fmap.
  destruct (decide (i < n)) as [Hi|Hi].
  - rewrite (lookup_seq_lt _ _ _ Hi). simpl.
    apply foldl_zip_with_lookup.
    + eapply Forall_impl; [exact Hall|]. intros rs Hrs. simpl in *.
      by rewrite length_replicate.
    + by apply lookup_replicate_2.
  - rewrite lookup_seq_ge by lia. simpl. apply lookup_ge_None. lia.
Qed.

(** [run] under a bound [n] on the number of steps, in full. *)
Lemma run_spec σ self e ps (n : Z) utc render fuel :
  valid_task (heap σ) self e ps →
  Z.to_nat n < fuel →
  ∃ σ0 m rss σ',
    reset self σ = Ok tt σ0
    ∧ m ≤ Z.to_nat n
    ∧ steps m self render σ0 = Ok rss σ'
    ∧ run fuel self (Some n) utc render σ = Ok (collapsed (length ps) rss) σ'
    ∧ length rss = m
    ∧ (utc = false → m = Z.to_nat n)
    ∧ (m < Z.to_nat n → done self σ' = Ok true σ')
    ∧ (utc = true → ∀ j rsj σj,
         0 < j < m → steps j self render σ0 = Ok rsj σj →
         done self σj = Ok false σj).
Proof.
  intros Hv Hfuel. destruct (valid_task_lookup _ _ _ _ Hv) as [t Hs].
  pose proof (reset_spec _ _ _ _ _ Hs Hv) as Hreset.
  set (σ0 := mkState _ _ _) in Hreset.
  assert (valid_task (heap σ0) self e ps) as Hv0
    by (by apply (valid_task_insert _ _ _ _ t)).
  destruct (run_loop_spec self e ps n utc render (Z.to_nat n) fuel 0
              (replicate (length ps) rzero) σ0)
    as (m & rss & σ' & Hm & Hsteps & Hloop & Hv' & Hlrss & Hall & Hfull
        & Hearly & Hmid); try done.
  { apply length_replicate. }
  { f_equal. lia. }
  exists σ0, m, rss, σ'. split_and!; try done.
  unfold run. rewrite (bind_Ok _ _ _ _ _ (get_task_Ok _ _ _ Hs)).
  destruct Hv as (t0 & Hs0 & He & Hc & Hi & Hps).
  assert (t0 = t) as -> by congruence.
  rewrite (bind_Ok _ _ _ _ _ (len_Ok _ _ _ Hi)). rewrite length_fmap.
  rewrite (bind_Ok _ _ _ _ _ Hreset).
  rewrite (bind_Ok _ _ _ _ _ Hloop).
  rewrite (foldl_zip_with_totals _ _ Hall). unfold collapsed.
  destruct (length ps) as [|[|n']]; try done.
Qed.

Lemma run_loop_mono self num_steps utc render fuel :
  ∀ fuel' t total σ v σ',
    fuel ≤ fuel' →
    run_loop fuel self num_steps utc render t total σ = Ok v σ' →
    run_loop fuel' self num_steps utc render t total σ = Ok v σ'.
Proof.
  induction fuel as [|fuel IH]; intros fuel' t total σ v σ' Hle; [done|].
  destruct fuel' as [|fuel']; [lia|]. cbn [run_loop].
  destruct (match num_steps with Some n => _ | None => _ end); [done|].
  apply bind_Ok_mono. intros rs σ1.
  apply bind_Ok_mono. intros total' σ2.
  apply bind_Ok_mono. intros stop σ3.
  destruct stop; [done|]. apply IH. lia.
Qed.

Lemma run_mono self num_steps utc render fuel fuel' σ v σ' :
  fuel ≤ fuel' →
  run fuel self num_steps utc render σ = Ok v σ' →
  run fuel' self num_steps utc render σ = Ok v σ'.
Proof.
  intros Hle. unfold run.
  apply bind_Ok_mono. intros t σ1.
  apply bind_Ok_mono. intros n σ2.
  apply bind_Ok_mono. intros _ σ3.
  intros Hrun. apply bind_Ok_inv in Hrun as (total & σ4 & Hloop & Hret).
  by rewrite (bind_Ok _ _ _ _ _ (run_loop_mono _ _ _ _ _ _ _ _ _ _ _ Hle Hloop)).
Qed.

End Run.

Lemma stub_episode_mono done_after policies fuel fuel' num_steps utc x :
  fuel ≤ fuel' →
  stub_episode done_after policies fuel num_steps utc = Some x →
  stub_episode done_after policies fuel' num_steps utc = Some x.
Proof.
  intros Hle. unfold stub_episode.
  destruct (bind _ _ _) as [v σ| |] eqn:Hrun; [|done..].
  intros Hx. erewrite bind_Ok_mono; [exact Hx| |exact Hrun].
  intros self σ1. by apply run_mono.
Qed.

(** C2: [run(num_steps=k)] with [k >= 1] resets the task, makes [k] steps
    and returns, for each policy, its rewards added up over the steps: the
    bare total with exactly one policy, the vector of the totals otherwise.
    With the stub that rewards every call by [1], five steps return [5] for a
    task of one policy and [[5, 5]] for a task of two. *)
Theorem run_accumulates :
  (∀ (C : Collab) σ self e ps (k : Z) render fuel,
     valid_task (heap σ) self e ps →
     (1 ≤ k)%Z →
     Z.to_nat k < fuel →
     ∃ σ0 rss σ' v,
       reset self σ = Ok tt σ0
       ∧ steps (Z.to_nat k) self render σ0 = Ok rss σ'
       ∧ length rss = Z.to_nat k
       ∧ run fuel self (Some k) false render σ = Ok v σ'
       ∧ (length ps = 1 → v = Scalar (total_of 0 rss))
       ∧ (length ps ≠ 1 →
          v = Vector ((λ i, total_of i rss) <$> seq 0 (length ps))))
  ∧ (∀ fuel, 5 < fuel →
       stub_episode None (VRef policy_a) fuel 5 false = Some (Scalar 5%Z, 5))
  ∧ (∀ fuel, 5 < fuel →
       stub_episode None (VRef list_ab) fuel 5 false = Some (Vector [5%Z; 5%Z], 10)).
Proof.
  split_and!.
  - intros C σ self e ps k render fuel Hv Hk Hfuel.
    destruct (run_spec σ self e ps k false render fuel Hv Hfuel)
      as (σ0 & m & rss & σ' & Hreset & Hm & Hsteps & Hrun & Hlen & Hfull & _).
    rewrite (Hfull eq_refl) in *.
    exists σ0, rss, σ', (collapsed (length ps) rss). split_and!; try done.
    + intros ->. done.
    + intros Hne. unfold collapsed.
      destruct (length ps =? 1) eqn:Heq; [|done].
      by apply Nat.eqb_eq in Heq.
  - intros fuel Hfuel. apply (stub_episode_mono _ _ 6); [lia|].
    vm_compute. reflexivity.
  - intros fuel Hfuel. apply (stub_episode_mono _ _ 6); [lia|].
    vm_compute. reflexivity.
Qed.

(** C4, as amended: under [use_terminating_condition=True], [run] makes no
    step after one that left the task done: it makes [m] steps, no step before the
    last of them has left the task done, and it stops short of [num_steps]
    only with the task done.  Without the condition it makes all the
    [num_steps] steps.  What a step leaves in the flag is what the
    environment reported last in that step.  With the stub that reports
    done from its third call on, [run(num_steps=10)] makes 3 steps and
    returns 3 under the condition, and makes 10 steps and returns 10
    without it. *)
Theorem run_terminating_condition :
  (∀ (C : Collab) σ self e ps (k : Z) render fuel,
     valid_task (heap σ) self e ps →
     Z.to_nat k < fuel →
     (∃ σ0 m rss σ',
        reset self σ = Ok tt σ0
        ∧ m ≤ Z.to_nat k
        ∧ steps m self render σ0 = Ok rss σ'
        ∧ length rss = m
        ∧ run fuel self (Some k) true render σ
          = Ok (collapsed (length ps) rss) σ'
        ∧ (m < Z.to_nat k → done self σ' = Ok true σ')
        ∧ (∀ j rsj σj,
             0 < j < m → steps j self render σ0 = Ok rsj σj →
             done self σj = Ok false σj))
     ∧ (∃ σ0 rss σ',
          reset self σ = Ok tt σ0
          ∧ steps (Z.to_nat k) self render σ0 = Ok rss σ'
          ∧ length rss = Z.to_nat k
          ∧ run fuel self (Some k) false render σ
            = Ok (collapsed (length ps) rss) σ'))
  ∧ (∀ (C : Collab) σ self t e ps (render : bool),
       heap σ !! self = Some (OTask t) →
       valid_task (heap σ) self e ps →
       let w0 := if render then env_render e (world σ) else env_hide e (world σ) in
       ∃ rewards σ',
         step self true render σ = Ok rewards σ'
         ∧ done self σ'
           = Ok (default (_done t) (last ((exchanges e true ps w0).1.*2))) σ')
  ∧ (∀ fuel, 10 < fuel →
       stub_episode (Some 3) (VRef policy_a) fuel 10 true = Some (Scalar 3%Z, 3))
  ∧ (∀ fuel, 10 < fuel →
       stub_episode (Some 3) (VRef policy_a) fuel 10 false = Some (Scalar 10%Z, 10)).
Proof.
  split_and!.
  - intros C σ self e ps k render fuel Hv Hfuel. split.
    + destruct (run_spec σ self e ps k true render fuel Hv Hfuel)
        as (σ0 & m & rss & σ' & Hreset & Hm & Hsteps & Hrun & Hlen & _
            & Hearly & Hmid).
      exists σ0, m, rss, σ'. split_and!; try done. by apply Hmid.
    + destruct (run_spec σ self e ps k false render fuel Hv Hfuel)
        as (σ0 & m & rss & σ' & Hreset & Hm & Hsteps & Hrun & Hlen & Hfull & _).
      rewrite (Hfull eq_refl) in *. by exists σ0, rss, σ'.
  - intros C σ self t e ps render Hs Hv w0.
    rewrite (step_spec _ _ _ _ _ true render Hs Hv). fold w0.
    do 2 eexists. split; [done|].
    by erewrite done_Ok; [|simpl; apply lookup_insert_eq].
  - intros fuel Hfuel. apply (stub_episode_mono _ _ 11); [lia|].
    vm_compute. reflexivity.
  - intros fuel Hfuel. apply (stub_episode_mono _ _ 11); [lia|].
    vm_compute. reflexivity.
Qed.

(** * The claims at work on the stub *)

Ltac stub_valid :=
  eexists; split_and!; [vm_compute; reflexivity .. | repeat constructor].

Example stub_construction_errors :
  @Task_new (stub None) (VRef other) (VRef policy_a) (stub_state None 0)
  = Raise TypeError
  ∧ @Task_new (stub None) (VRef the_env) (VStr "not a policy") (stub_state None 0)
    = Raise TypeError
  ∧ @Task_new (stub None) (VRef the_env) (VInt 3) (stub_state None 0)
    = Raise TypeError.
Proof. split_and!; vm_compute; reflexivity. Qed.



Lemma reset_idempotent_flags_witness :
  valid_task (heap (stub_task_state None true true 4)) the_task the_env
    [policy_a; policy_b]
  ∧ ∃ σ1 σ2,
      reset the_task (stub_task_state None true true 4) = Ok tt σ1
      ∧ done the_task σ1 = Ok false σ1
      ∧ succeeded the_task σ1 = Ok false σ1
      ∧ reset the_task σ1 = Ok tt σ2
      ∧ done the_task σ2 = Ok false σ2
      ∧ succeeded the_task σ2 = Ok false σ2
      ∧ failed the_task σ2 = Ok true σ2
      ∧ heap σ2 = heap σ1.
Proof.
  assert (valid_task (heap (stub_task_state None true true 4)) the_task the_env
            [policy_a; policy_b]) as Hv by stub_valid.
  split; [exact Hv|].
  exact (reset_idempotent_flags _ _ _ _ Hv).
Defined.

Lemma Task_copy_shares_witness :
  heap (stub_task_state None true true 4) !! the_task
  = Some (OTask (mkTask (VRef the_env) (VRef list_ab) true true))
  ∧ valid_task (heap (stub_task_state None true true 4)) the_task the_env
      [policy_a; policy_b]
  ∧ ∃ c σ',
      __copy__ the_task (stub_task_state None true true 4) = Ok c σ'
      ∧ c ≠ the_task
      ∧ heap (stub_task_state None true true 4) !! c = None
      ∧ environment c σ' = Ok (VRef the_env) σ'
      ∧ environment the_task σ' = Ok (VRef the_env) σ'
      ∧ (∃ tc, task_of (heap σ') c = Some tc
               ∧ env tc = VRef the_env ∧ policies tc = VRef list_ab)
      ∧ stored_policies (heap σ') c = Some (VRef <$> [policy_a; policy_b])
      ∧ stored_policies (heap σ') the_task = Some (VRef <$> [policy_a; policy_b])
      ∧ (∀ l, l ≠ c →
              heap σ' !! l = heap (stub_task_state None true true 4) !! l)
      ∧ world σ' = world (stub_task_state None true true 4).
Proof.
  assert (heap (stub_task_state None true true 4) !! the_task
          = Some (OTask (mkTask (VRef the_env) (VRef list_ab) true true))) as Hs
    by (vm_compute; reflexivity).
  assert (valid_task (heap (stub_task_state None true true 4)) the_task the_env
            [policy_a; policy_b]) as Hv by stub_valid.
  split; [exact Hs|]. split; [exact Hv|].
  exact (Task_copy_shares _ _ _ _ _ Hs Hv).
Defined.

Lemma Task_copy_flags_witness :
  heap (stub_task_state None true true 4) !! the_task
  = Some (OTask (mkTask (VRef the_env) (VRef list_ab) true true))
  ∧ valid_task (heap (stub_task_state None true true 4)) the_task the_env
      [policy_a; policy_b]
  ∧ ∃ c σ',
      __copy__ the_task (stub_task_state None true true 4) = Ok c σ'
      ∧ done c σ' = Ok false σ'
      ∧ succeeded c σ' = Ok false σ'
      ∧ done the_task σ' = Ok true σ'
      ∧ succeeded the_task σ' = Ok true σ'.
Proof.
  assert (heap (stub_task_state None true true 4) !! the_task
          = Some (OTask (mkTask (VRef the_env) (VRef list_ab) true true))) as Hs
    by (vm_compute; reflexivity).
  assert (valid_task (heap (stub_task_state None true true 4)) the_task the_env
            [policy_a; policy_b]) as Hv by stub_valid.
  split; [exact Hs|]. split; [exact Hv|].
  exact (Task_copy_flags _ _ _ _ _ Hs Hv).
Defined.

Lemma step_rewards_per_policy_witness :
  valid_task (heap (stub_task_state None false false 0)) the_task the_env
    [policy_a; policy_b]
  ∧ ∃ rewards σ',
      step the_task true false (stub_task_state None false false 0)
      = Ok rewards σ'
      ∧ length rewards = 2
      ∧ ∀ i p, [policy_a; policy_b] !! i = Some p →
          rewards !! i
          = Some (exchange the_env true p
                    (exchanges the_env true (take i [policy_a; policy_b])
                       (env_hide the_env
                          (world (stub_task_state None false false 0)))).2).1.1.
Proof.
  assert (valid_task (heap (stub_task_state None false false 0)) the_task the_env
            [policy_a; policy_b]) as Hv by stub_valid.
  split; [exact Hv|].
  exact (step_rewards_per_policy _ _ _ _ true false Hv).
Defined.

Lemma step_done_overwritten_witness :
  valid_task (heap (stub_task_state (Some 2) false false 0)) the_task the_env
    ([policy_a] ++ policy_b :: [])
  ∧ ∃ rewards σ',
      step the_task true false (stub_task_state (Some 2) false false 0)
      = Ok rewards σ'
      ∧ done the_task σ' = Ok true σ'.
Proof.
  assert (valid_task (heap (stub_task_state (Some 2) false false 0)) the_task
            the_env ([policy_a] ++ policy_b :: [])) as Hv by stub_valid.
  split; [exact Hv|].
  exact (proj2 (step_done_overwritten _ _ _ _ _ _ true false Hv) eq_refl).
Defined.

Lemma accessors_collapse_singleton_witness :
  valid_task (heap (stub_task_state None false false 0)) the_task the_env
    [policy_a; policy_b]
  ∧ ∃ v σ',
      learning_model the_task (stub_task_state None false false 0) = Ok v σ'
      ∧ items (heap σ') v = Some [VStr "model"; VStr "model"]
      ∧ len v σ' = Ok 2 σ'.
Proof.
  assert (valid_task (heap (stub_task_state None false false 0)) the_task the_env
            [policy_a; policy_b]) as Hv by stub_valid.
  split; [exact Hv|].
  exact (proj2 (proj2 (proj2 (accessors_collapse_singleton _ _ _ _ Hv)
                         ltac:(simpl; lia)))).
Defined.

Lemma run_accumulates_witness :
  valid_task (heap (stub_task_state None true false 7)) the_task the_env
    [policy_a; policy_b]
  ∧ (1 ≤ 5)%Z
  ∧ Z.to_nat 5 < 6
  ∧ ∃ σ0 rss σ' v,
      reset the_task (stub_task_state None true false 7) = Ok tt σ0
      ∧ steps (Z.to_nat 5) the_task false σ0 = Ok rss σ'
      ∧ length rss = Z.to_nat 5
      ∧ run 6 the_task (Some 5%Z) false false (stub_task_state None true false 7)
        = Ok v σ'
      ∧ (2 = 1 → v = Scalar (total_of 0 rss))
      ∧ (2 ≠ 1 → v = Vector ((λ i, total_of i rss) <$> seq 0 2)).
Proof.
  assert (valid_task (heap (stub_task_state None true false 7)) the_task the_env
            [policy_a; policy_b]) as Hv by stub_valid.
  assert (1 ≤ 5)%Z as Hk by lia.
  assert (Z.to_nat 5 < 6) as Hfuel by (vm_compute; lia).
  split; [exact Hv|]. split; [exact Hk|]. split; [exact Hfuel|].
  exact (proj1 run_accumulates _ _ _ _ _ _ false _ Hv Hk Hfuel).
Defined.

Lemma run_terminating_condition_witness :
  valid_task (heap (stub_task_state (Some 3) false false 7)) the_task the_env
    [policy_a; policy_b]
  ∧ Z.to_nat 10 < 11
  ∧ ∃ σ0 m rss σ',
      reset the_task (stub_task_state (Some 3) false false 7) = Ok tt σ0
      ∧ m ≤ Z.to_nat 10
      ∧ steps m the_task false σ0 = Ok rss σ'
      ∧ length rss = m
      ∧ run 11 the_task (Some 10%Z) true false
          (stub_task_state (Some 3) false false 7)
        = Ok (collapsed 2 rss) σ'
      ∧ (m < Z.to_nat 10 → done the_task σ' = Ok true σ')
      ∧ (∀ j rsj σj,
           0 < j < m → steps j the_task false σ0 = Ok rsj σj →
           done the_task σj = Ok false σj).
Proof.
  assert (valid_task (heap (stub_task_state (Some 3) false false 7)) the_task
            the_env [policy_a; policy_b]) as Hv by stub_valid.
  assert (Z.to_nat 10 < 11) as Hfuel by (vm_compute; lia).
  split; [exact Hv|]. split; [exact Hfuel|].
  exact (proj1 (proj1 run_terminating_condition _ _ _ _ _ _ false _ Hv Hfuel)).
Defined.

Lemma Task_new_TypeError_iff_witness :
  isinstance_Env (heap (stub_state None 0)) (VRef the_env) = true
  ∧ isinstance_Policy (heap (stub_state None 0)) (VRef policy_a) = true
  ∧ ∃ self σ',
      Task_new (VRef the_env) (VRef policy_a) (stub_state None 0) = Ok self σ'
      ∧ stored_policies (heap σ') self = Some [VRef policy_a].
Proof.
  assert (isinstance_Env (heap (stub_state None 0)) (VRef the_env) = true) as He
    by (vm_compute; reflexivity).
  assert (isinstance_Policy (heap (stub_state None 0)) (VRef policy_a) = true)
    as Hp by (vm_compute; reflexivity).
  split; [exact He|]. split; [exact Hp|].
  exact (proj1 (proj2 (proj2 (proj2
           (Task_new_TypeError_iff (stub_state None 0) (VRef the_env)
              (VRef policy_a))))) He Hp).
Defined.

(** * Further properties of [Task] *)

(** ** The getters *)

Section GetterProperties.
Context `{Collab}.

Lemma subscript_Ok σ v xs i x :
  items (heap σ) v = Some xs →
  xs !! i = Some x →
  subscript v (Z.of_nat i) σ = Ok x σ
  ∧ subscript v (Z.of_nat i - Z.of_nat (length xs)) σ = Ok x σ.
Proof.
  intros Hi Hx. pose proof (lookup_lt_Some _ _ _ Hx) as Hlt.
  assert ((Z.of_nat i <? 0)%Z = false) as Hneg by (apply Z.ltb_ge; lia).
  assert ((Z.of_nat (length xs) <=? Z.of_nat i)%Z = false) as Hge
    by (apply Z.leb_gt; lia).
  unfold subscript, bind, get_heap. rewrite Hi. cbn zeta. split.
  - rewrite Hneg. cbn iota. rewrite Hneg, Hge. cbn [orb].
    by rewrite Nat2Z.id, Hx.
  - assert ((Z.of_nat i - Z.of_nat (length xs) <? 0)%Z = true) as ->
      by (apply Z.ltb_lt; lia).
    replace (Z.of_nat i - Z.of_nat (length xs) + Z.of_nat (length xs))%Z
      with (Z.of_nat i) by lia.
    rewrite Hneg, Hge. cbn [orb]. by rewrite Nat2Z.id, Hx.
Qed.

Lemma subscript_IndexError σ v xs (z : Z) :
  items (heap σ) v = Some xs →
  (z < - Z.of_nat (length xs) ∨ Z.of_nat (length xs) ≤ z)%Z →
  subscript v z σ = Raise IndexError.
Proof.
  intros Hi Hz. unfold subscript, bind, get_heap. rewrite Hi. cbn zeta.
  destruct (z <? 0)%Z eqn:Hneg.
  - apply Z.ltb_lt in Hneg.
    assert ((z + Z.of_nat (length xs) <? 0)%Z = true) as ->
      by (apply Z.ltb_lt; lia).
    done.
  - rewrite Hneg. apply Z.ltb_ge in Hneg.
    assert ((Z.of_nat (length xs) <=? z)%Z = true) as ->
      by (apply Z.leb_le; lia).
    done.
Qed.

Lemma get_policy_at σ self e ps i p :
  valid_task (heap σ) self e ps →
  ps !! i = Some p →
  get_policy self (Some (Z.of_nat i)) σ = Ok (VRef p) σ
  ∧ get_policy self (Some (Z.of_nat i - Z.of_nat (length ps))%Z) σ
    = Ok (VRef p) σ.
Proof.
  intros (t & Hs & He & Hc & Hi & Hps) Hp. unfold get_policy.
  assert ((VRef <$> ps) !! i = Some (VRef p)) as Hx
    by (by rewrite list_lookup_fmap, Hp).
  rewrite !(bind_Ok _ _ _ _ _ (get_task_Ok _ _ _ Hs)).
  destruct (subscript_Ok _ _ _ _ _ Hi Hx) as [H1 H2].
  rewrite length_fmap in H2. done.
Qed.

Lemma get_policy_None σ self t :
  heap σ !! self = Some (OTask t) →
  get_policy self None σ = Ok (policies t) σ.
Proof.
  intros Hs. unfold get_policy.
  by rewrite (bind_Ok _ _ _ _ _ (get_task_Ok _ _ _ Hs)).
Qed.

Lemma get_learning_model_None σ self e ps :
  valid_task (heap σ) self e ps →
  get_learning_model self None σ
  = Ok (VRef (fresh (dom (heap σ))))
       (mkState _
          (<[fresh (dom (heap σ))
             := OList ((λ p, policy_model p (world σ)) <$> ps)]> (heap σ))
          (world σ)).
Proof.
  intros (t & Hs & He & Hc & Hi & Hps). unfold get_learning_model.
  rewrite (bind_Ok _ _ _ _ _ (get_task_Ok _ _ _ Hs)).
  rewrite (bind_Ok _ _ _ _ _ (iterate_Ok _ _ _ Hi)).
  by rewrite (bind_Ok _ _ _ _ _ (attr_of_each_Ok _ _ _ Hps)).
Qed.

Lemma get_learning_model_at σ self e ps i p :
  valid_task (heap σ) self e ps →
  ps !! i = Some p →
  get_learning_model self (Some (Z.of_nat i)) σ
  = Ok (policy_model p (world σ)) σ
  ∧ get_learning_model self (Some (Z.of_nat i - Z.of_nat (length ps))%Z) σ
    = Ok (policy_model p (world σ)) σ.
Proof.
  intros (t & Hs & He & Hc & Hi & Hps) Hp. unfold get_learning_model.
  assert ((VRef <$> ps) !! i = Some (VRef p)) as Hx
    by (by rewrite list_lookup_fmap, Hp).
  assert (heap σ !! p = Some OPolicy) as Hpp.
  { rewrite Forall_forall in Hps. apply Hps.
    by apply list_elem_of_lookup_2 in Hp. }
  destruct (subscript_Ok _ _ _ _ _ Hi Hx) as [H1 H2].
  rewrite length_fmap in H2.
  rewrite !(bind_Ok _ _ _ _ _ (get_task_Ok _ _ _ Hs)).
  rewrite (bind_Ok _ _ _ _ _ H1), (bind_Ok _ _ _ _ _ H2).
  by rewrite !(bind_Ok _ _ _ _ _ (as_Policy_Ok _ _ Hpp)).
Qed.

(** X1: [get_policy(idx)] follows Python's indexing of the stored sequence:
    the index [i] and the index [i - N] both give the policy number [i],
    an index below [-N] or from [N] on raises [IndexError], and with
    [idx=None] the stored sequence itself is returned.  Nothing changes. *)
Theorem get_policy_index σ self t e ps :
  heap σ !! self = Some (OTask t) →
  valid_task (heap σ) self e ps →
  (∀ i p, ps !! i = Some p →
          get_policy self (Some (Z.of_nat i)) σ = Ok (VRef p) σ
          ∧ get_policy self (Some (Z.of_nat i - Z.of_nat (length ps))%Z) σ
            = Ok (VRef p) σ)
  ∧ (∀ z : Z, (z < - Z.of_nat (length ps) ∨ Z.of_nat (length ps) ≤ z)%Z →
              get_policy self (Some z) σ = Raise IndexError)
  ∧ get_policy self None σ = Ok (policies t) σ
  ∧ items (heap σ) (policies t) = Some (VRef <$> ps).
Proof.
  intros Hs Hv. split_and!.
  - intros i p Hp. by eapply get_policy_at.
  - destruct Hv as (t0 & Hs0 & He & Hc & Hi & Hps).
    intros z Hz. unfold get_policy.
    rewrite (bind_Ok _ _ _ _ _ (get_task_Ok _ _ _ Hs0)).
    apply (subscript_IndexError _ _ _ _ Hi). by rewrite length_fmap.
  - by apply get_policy_None.
  - destruct Hv as (t0 & Hs0 & He & Hc & Hi & Hps). congruence.
Qed.

(** X2: [get_learning_model()] always makes a new list with the model of
    every policy, in their order, also for a task of one policy (where the
    property [learning_model] gives the bare model) and for a task of none;
    [get_learning_model(idx)] gives the model of the policy that
    [get_policy(idx)] gives, and raises [IndexError] where that does. *)
Theorem get_learning_model_list σ self e ps :
  valid_task (heap σ) self e ps →
  let l := fresh (dom (heap σ)) in
  let models := (λ p, policy_model p (world σ)) <$> ps in
  get_learning_model self None σ
  = Ok (VRef l) (mkState _ (<[l := OList models]> (heap σ)) (world σ))
  ∧ heap σ !! l = None
  ∧ length models = length ps
  ∧ (∀ p, ps = [p] →
          learning_model self σ = Ok (policy_model p (world σ)) σ)
  ∧ (∀ i p, ps !! i = Some p →
            get_learning_model self (Some (Z.of_nat i)) σ
            = Ok (policy_model p (world σ)) σ
            ∧ get_learning_model self (Some (Z.of_nat i - Z.of_nat (length ps))%Z) σ
              = Ok (policy_model p (world σ)) σ)
  ∧ (∀ z : Z, (z < - Z.of_nat (length ps) ∨ Z.of_nat (length ps) ≤ z)%Z →
              get_learning_model self (Some z) σ = Raise IndexError).
Proof.
  intros Hv l models.
  pose proof (collapsed_attr_spec policy_model _ _ _ _ Hv) as Hmod.
  split_and!.
  - by eapply get_learning_model_None.
  - apply fresh_lookup.
  - apply length_fmap.
  - by intros p ->.
  - intros i p Hp. by eapply get_learning_model_at.
  - destruct Hv as (t & Hs & He & Hc & Hi & Hps).
    intros z Hz. unfold get_learning_model.
    rewrite (bind_Ok _ _ _ _ _ (get_task_Ok _ _ _ Hs)).
    unfold bind at 1. erewrite subscript_IndexError; [done|done|].
    by rewrite length_fmap.
Qed.

(** X3: the property [policy] is [get_policy(0)] for a task of exactly
    one policy and [get_policy()] for any other, and the property
    [learning_model] is [get_learning_model(0)] and [get_learning_model()]
    in the same way. *)
Theorem collapsing_accessors_are_getters σ self e ps :
  valid_task (heap σ) self e ps →
  let idx := if length ps =? 1 then Some 0%Z else None in
  policy self σ = get_policy self idx σ
  ∧ learning_model self σ = get_learning_model self idx σ.
Proof.
  intros Hv idx. destruct (valid_task_lookup _ _ _ _ Hv) as [t Hs].
  pose proof (policy_spec _ _ _ _ _ Hs Hv) as Hpol.
  pose proof (collapsed_attr_spec policy_model _ _ _ _ Hv) as Hmod.
  fold (learning_model self) in Hmod.
  pose proof (get_policy_None _ _ _ Hs) as HpN.
  pose proof (get_learning_model_None _ _ _ _ Hv) as HmN.
  unfold idx. destruct ps as [|p [|q ps]]; cbn [length Nat.eqb].
  - by rewrite Hpol, Hmod, HpN, HmN.
  - destruct (get_policy_at σ self e [p] 0 p Hv eq_refl) as [Hp0 _].
    destruct (get_learning_model_at σ self e [p] 0 p Hv eq_refl) as [Hm0 _].
    change (Z.of_nat 0) with 0%Z in Hp0, Hm0.
    by rewrite Hpol, Hmod, Hp0, Hm0.
  - by rewrite Hpol, Hmod, HpN, HmN.
Qed.

End GetterProperties.

(** ** What construction, [reset], [step] and [run] leave as it is *)

Section FrameProperties.
Context `{Collab}.


(** X17: a string passes for the policies only when it is empty: its
    characters are no policies, so any other string is refused with
    [TypeError]; the empty string gives a task of no policy. *)
Theorem Task_new_string σ environment s :
  isinstance_Env (heap σ) environment = true →
  (s = EmptyString →
   ∃ self σ', Task_new environment (VStr s) σ = Ok self σ'
            ∧ stored_policies (heap σ') self = Some [])
  ∧ (s ≠ EmptyString → Task_new environment (VStr s) σ = Raise TypeError).
Proof.
  intros He. pose proof (Task_new_spec σ environment (VStr s)) as Hspec.
  cbn zeta in Hspec. rewrite He in Hspec. simpl in Hspec. split.
  - intros ->. simpl in Hspec. rewrite Hspec. do 2 eexists. split; [done|].
    unfold stored_policies, task_of. simpl. by rewrite lookup_insert_eq.
  - intros Hs. destruct s as [|c s]; [done|]. by rewrite Hspec.
Qed.

(** A run of steps changes nothing in the store but the flag [_done]. *)
Lemma steps_store self e ps render m :
  ∀ σ t,
    heap σ !! self = Some (OTask t) →
    valid_task (heap σ) self e ps →
    ∃ rss σ' d,
      steps m self render σ = Ok rss σ'
      ∧ heap σ' = <[self := OTask (mkTask (env t) (policies t) d (_succeeded t))]>
                    (heap σ)
      ∧ length rss = m
      ∧ Forall (λ rs, length rs = length ps) rss.
Proof.
  induction m as [|m IH]; intros σ t Hs Hv.
  - exists [], σ, (_done t). split_and!; try done.
    symmetry. apply insert_id. rewrite Hs. by destruct t.
  - pose proof (step_spec _ _ _ _ _ true render Hs Hv) as Hstep.
    cbn zeta in Hstep.
    set (r := exchanges _ _ _ _) in Hstep.
    set (t1 := mkTask _ _ _ _) in Hstep.
    set (σ1 := mkState _ _ _) in Hstep.
    assert (heap σ1 !! self = Some (OTask t1)) as Hs1 by apply lookup_insert_eq.
    assert (valid_task (heap σ1) self e ps) as Hv1
      by (by apply (valid_task_insert _ _ _ _ t)).
    destruct (IH σ1 t1 Hs1 Hv1) as (rss & σ' & d & Hsteps & Hh & Hlen & Hall).
    exists (r.1.*1 :: rss), σ', d. split_and!.
    + cbn [steps]. rewrite (bind_Ok _ _ _ _ _ Hstep).
      by rewrite (bind_Ok _ _ _ _ _ Hsteps).
    + rewrite Hh. simpl. by rewrite insert_insert_eq.
    + simpl. by rewrite Hlen.
    + constructor; [|done]. unfold r. by rewrite length_fmap, exchanges_length.
Qed.

(** The store after a bounded [run]. *)
Lemma run_store σ self t e ps (n : Z) utc render fuel :
  heap σ !! self = Some (OTask t) →
  valid_task (heap σ) self e ps →
  Z.to_nat n < fuel →
  ∃ v σ' d,
    run fuel self (Some n) utc render σ = Ok v σ'
    ∧ heap σ' = <[self := OTask (mkTask (env t) (policies t) d false)]> (heap σ).
Proof.
  intros Hs Hv Hfuel.
  destruct (run_spec σ self e ps n utc render fuel Hv Hfuel)
    as (σ0 & m & rss & σ' & Hreset & _ & Hsteps & Hrun & _).
  rewrite (reset_spec _ _ _ _ _ Hs Hv) in Hreset.
  inversion Hreset as [Hσ0]; clear Hreset.
  set (t0 := mkTask (env t) (policies t) false false) in *.
  assert (heap σ0 !! self = Some (OTask t0)) as Hs0
    by (rewrite <-Hσ0; apply lookup_insert_eq).
  assert (valid_task (heap σ0) self e ps) as Hv0
    by (rewrite <-Hσ0; by apply (valid_task_insert _ _ _ _ t)).
  destruct (steps_store self e ps render m σ0 t0 Hs0 Hv0)
    as (rss' & σ'' & d & Hsteps' & Hh & _).
  rewrite Hsteps in Hsteps'. inversion Hsteps'; subst rss' σ''.
  exists (collapsed (length ps) rss), σ', d. split; [done|].
  rewrite Hh, <-Hσ0. simpl. by rewrite insert_insert_eq.
Qed.

(** X5: [reset], [step] and a bounded [run] change nothing in the store
    but the flags of the task: every other object stays as it is, and so do
    the environment and the policies the task is bound to; a valid task
    stays a valid task over the same environment and policies. *)
Theorem methods_keep_bindings σ self t e ps :
  heap σ !! self = Some (OTask t) →
  valid_task (heap σ) self e ps →
  let same σ' :=
    (∃ d s, heap σ' = <[self := OTask (mkTask (env t) (policies t) d s)]> (heap σ))
    ∧ (∀ l, l ≠ self → heap σ' !! l = heap σ !! l)
    ∧ valid_task (heap σ') self e ps in
  (∃ σ', reset self σ = Ok tt σ' ∧ same σ')
  ∧ (∀ det render, ∃ rs σ', step self det render σ = Ok rs σ' ∧ same σ')
  ∧ (∀ (n : Z) utc render fuel,
       Z.to_nat n < fuel →
       ∃ v σ', run fuel self (Some n) utc render σ = Ok v σ' ∧ same σ').
Proof.
  intros Hs Hv same.
  assert (∀ σ' d s,
            heap σ' = <[self := OTask (mkTask (env t) (policies t) d s)]> (heap σ) →
            same σ') as Hsame.
  { intros σ' d s Hh. unfold same. split_and!.
    - eauto.
    - intros l Hl. rewrite Hh. by rewrite lookup_insert_ne.
    - rewrite Hh. by apply (valid_task_insert _ _ _ _ t). }
  split_and!.
  - eexists. split; [by apply reset_spec|]. by eapply Hsame.
  - intros det render. do 2 eexists. split; [by apply step_spec|].
    by eapply Hsame.
  - intros n utc render fuel Hfuel.
    destruct (run_store σ self t e ps n utc render fuel Hs Hv Hfuel)
      as (v & σ' & d & Hrun & Hh).
    exists v, σ'. split; [done|]. by eapply Hsame.
Qed.

(** X6: nothing in [Task] ever sets [succeeded]: a step leaves it as it
    is, and after [reset] and after a bounded [run] the task has not
    succeeded and has failed, whatever the environment reported. *)
Theorem never_succeeds σ self t e ps :
  heap σ !! self = Some (OTask t) →
  valid_task (heap σ) self e ps →
  (∀ det render,
     ∃ rs σ', step self det render σ = Ok rs σ'
            ∧ has_succeeded self σ' = Ok (_succeeded t) σ')
  ∧ (∃ σ', reset self σ = Ok tt σ'
         ∧ has_succeeded self σ' = Ok false σ'
         ∧ has_failed self σ' = Ok true σ')
  ∧ (∀ (n : Z) utc render fuel,
       Z.to_nat n < fuel →
       ∃ v σ', run fuel self (Some n) utc render σ = Ok v σ'
             ∧ has_succeeded self σ' = Ok false σ'
             ∧ has_failed self σ' = Ok true σ').
Proof.
  intros Hs Hv.
  assert (∀ σ' d s,
            heap σ' = <[self := OTask (mkTask (env t) (policies t) d s)]> (heap σ) →
            has_succeeded self σ' = Ok s σ'
            ∧ has_failed self σ' = Ok (negb s) σ') as Hflag.
  { intros σ' d s Hh.
    assert (heap σ' !! self
            = Some (OTask (mkTask (env t) (policies t) d s))) as Hs'
      by (rewrite Hh; apply lookup_insert_eq).
    unfold has_succeeded, has_failed, failed.
    by rewrite (bind_Ok _ _ _ _ _ (succeeded_Ok _ _ _ Hs')),
               (succeeded_Ok _ _ _ Hs'). }
  split_and!.
  - intros det render. do 2 eexists. split; [by apply step_spec|].
    by eapply Hflag.
  - eexists. split; [by apply reset_spec|]. by eapply (Hflag _ false false).
  - intros n utc render fuel Hfuel.
    destruct (run_store σ self t e ps n utc render fuel Hs Hv Hfuel)
      as (v & σ' & d & Hrun & Hh).
    exists v, σ'. split; [done|]. by eapply (Hflag _ d false).
Qed.

(** X13: [reset] resets the environment first, once, and then the policies
    one by one in the order of the sequence, each on the world the one
    before left; what [env.reset()] returns is dropped. *)
Theorem reset_order σ self e ps :
  valid_task (heap σ) self e ps →
  ∃ σ',
    reset self σ = Ok tt σ'
    ∧ world σ' = foldl (λ w p, policy_reset p w) (env_reset e (world σ)).2 ps
    ∧ (ps = [] → world σ' = (env_reset e (world σ)).2)
    ∧ (∀ p q, ps = [p; q] →
         world σ' = policy_reset q (policy_reset p (env_reset e (world σ)).2)).
Proof.
  intros Hv. destruct (valid_task_lookup _ _ _ _ Hv) as [t Hs].
  eexists. split; [by apply reset_spec|]. simpl. split_and!.
  - done.
  - by intros ->.
  - by intros p q ->.
Qed.

(** X7: a step of a task of no policy returns an empty array of rewards
    and leaves the store, and so the flag [_done], as it is; all it does is
    the call of [render] or [hide]. *)
Theorem step_no_policy σ self e det (render : bool) :
  valid_task (heap σ) self e [] →
  step self det render σ
  = Ok [] (mkState _ (heap σ)
             (if render then env_render e (world σ) else env_hide e (world σ))).
Proof.
  intros Hv. destruct (valid_task_lookup _ _ _ _ Hv) as [t Hs].
  rewrite (step_spec _ _ _ _ _ det render Hs Hv). simpl. f_equal. f_equal.
  apply insert_id. rewrite Hs. by destruct t.
Qed.

(** X8: [run] with [num_steps <= 0] makes no step: it resets the task and
    returns zero, or the vector of as many zeros as there are policies. *)
Theorem run_no_step σ self t e ps (n : Z) utc render fuel :
  heap σ !! self = Some (OTask t) →
  valid_task (heap σ) self e ps →
  (n ≤ 0)%Z →
  0 < fuel →
  run fuel self (Some n) utc render σ
  = Ok (if length ps =? 1 then Scalar rzero
        else Vector (replicate (length ps) rzero))
       (mkState _
          (<[self := OTask (mkTask (env t) (policies t) false false)]> (heap σ))
          (reset_world e ps (world σ))).
Proof.
  intros Hs Hv Hn Hfuel. pose proof (reset_spec _ _ _ _ _ Hs Hv) as Hreset.
  destruct Hv as (t0 & Hs0 & He & Hc & Hi & Hps).
  assert (t0 = t) as -> by congruence.
  unfold run. rewrite (bind_Ok _ _ _ _ _ (get_task_Ok _ _ _ Hs)).
  rewrite (bind_Ok _ _ _ _ _ (len_Ok _ _ _ Hi)). rewrite length_fmap.
  rewrite (bind_Ok _ _ _ _ _ Hreset).
  destruct fuel as [|fuel]; [lia|]. cbn [run_loop].
  assert ((n <=? Z.of_nat 0)%Z = true) as -> by (apply Z.leb_le; lia).
  unfold ret at 1. unfold bind at 1.
  by destruct ps as [|p [|q ps]].
Qed.

End FrameProperties.

(** ** More about [run] *)

Section RunProperties.
Context `{Collab}.

Lemma steps_snoc self render k :
  ∀ σ rss σk rs σ',
    steps k self render σ = Ok rss σk →
    step self true render σk = Ok rs σ' →
    steps (S k) self render σ = Ok (rss ++ [rs]) σ'.
Proof.
  induction k as [|k IH]; intros σ rss σk rs σ' Hk Hstep.
  - inversion Hk; subst. cbn [steps]. by rewrite (bind_Ok _ _ _ _ _ Hstep).
  - cbn [steps] in Hk.
    apply bind_Ok_inv in Hk as (r1 & σ1 & Hstep1 & Hk).
    apply bind_Ok_inv in Hk as (rss1 & σ2 & Hk & Hret).
    inversion Hret; subst.
    pose proof (IH _ _ _ _ _ Hk Hstep) as HSk.
    change (steps (S (S k)) self render σ)
      with (bind (step self true render)
              (λ r, bind (steps (S k) self render) (λ rs0, ret (r :: rs0))) σ).
    rewrite (bind_Ok _ _ _ _ _ Hstep1). by rewrite (bind_Ok _ _ _ _ _ HSk).
Qed.

Lemma total_of_snoc i rss rs :
  total_of i (rss ++ [rs]) = radd (total_of i rss) (nth i rs rzero).
Proof. unfold total_of. by rewrite fmap_app, foldl_app. Qed.

(** X14: a run of one more step is the run followed by a step: the state
    after [run(num_steps=n+1)] is the one a step makes out of the state
    after [run(num_steps=n)], and each total is the total of the shorter run
    plus the reward of that step. *)
Theorem run_one_more_step σ self e ps (n : Z) render fuel :
  valid_task (heap σ) self e ps →
  (0 ≤ n)%Z →
  Z.to_nat (n + 1) < fuel →
  ∃ rss σn rs σ',
    run fuel self (Some n) false render σ = Ok (collapsed (length ps) rss) σn
    ∧ step self true render σn = Ok rs σ'
    ∧ run fuel self (Some (n + 1)%Z) false render σ
      = Ok (collapsed (length ps) (rss ++ [rs])) σ'
    ∧ ∀ i, total_of i (rss ++ [rs]) = radd (total_of i rss) (nth i rs rzero).
Proof.
  intros Hv Hn Hfuel. destruct (valid_task_lookup _ _ _ _ Hv) as [t Hs].
  destruct (run_spec σ self e ps n false render fuel Hv)
    as (σ0 & m & rss & σn & Hreset & _ & Hsteps & Hrun & _ & Hfull & _); [lia|].
  rewrite (Hfull eq_refl) in *. clear Hfull.
  destruct (run_spec σ self e ps (n + 1) false render fuel Hv Hfuel)
    as (σ0' & m' & rss' & σ' & Hreset' & _ & Hsteps' & Hrun' & _ & Hfull' & _).
  rewrite (Hfull' eq_refl) in *. clear Hfull'.
  rewrite Hreset in Hreset'. inversion Hreset'; subst σ0'. clear Hreset'.
  pose proof (reset_spec _ _ _ _ _ Hs Hv) as Hr. rewrite Hreset in Hr.
  inversion Hr as [Hσ0]; clear Hr.
  set (t0 := mkTask (env t) (policies t) false false) in *.
  assert (heap σ0 !! self = Some (OTask t0)) as Hs0
    by (rewrite Hσ0; apply lookup_insert_eq).
  assert (valid_task (heap σ0) self e ps) as Hv0
    by (rewrite Hσ0; by apply (valid_task_insert _ _ _ _ t)).
  destruct (steps_store self e ps render (Z.to_nat n) σ0 t0 Hs0 Hv0)
    as (rss1 & σn1 & d & Hsteps1 & Hh & _).
  rewrite Hsteps in Hsteps1. inversion Hsteps1; subst rss1 σn1. clear Hsteps1.
  assert (valid_task (heap σn) self e ps) as Hvn
    by (rewrite Hh; by apply (valid_task_insert _ _ _ _ t0)).
  destruct (step_valid _ _ _ _ true render Hvn) as (rs & σ'' & Hstep & _).
  pose proof (steps_snoc _ _ _ _ _ _ _ _ Hsteps Hstep) as HS.
  replace (Z.to_nat (n + 1)) with (S (Z.to_nat n)) in Hsteps' by lia.
  rewrite HS in Hsteps'. inversion Hsteps'; subst rss' σ'.
  exists rss, σn, rs, σ''. split_and!; try done.
  intros i. apply total_of_snoc.
Qed.

Lemma run_loop_unbounded_diverges self e ps render fuel :
  ∀ t total σ,
    valid_task (heap σ) self e ps →
    length total = length ps →
    run_loop fuel self None false render t total σ = OutOfFuel.
Proof.
  induction fuel as [|fuel IH]; intros t total σ Hv Hlen; [done|].
  cbn [run_loop].
  destruct (step_valid _ _ _ _ true render Hv) as (rs & σ1 & Hstep & Hrs & Hv1).
  rewrite (bind_Ok _ _ _ _ _ Hstep).
  rewrite (bind_Ok _ _ _ _ _ (np_iadd_Ok _ _ _ (eq_trans Hrs (eq_sym Hlen)))).
  unfold ret at 1. unfold bind at 1. apply IH; [done|].
  rewrite length_zip_with. lia.
Qed.

(** X9: [run()] with neither a number of steps nor the terminating
    condition never returns: whatever the number of iterations allowed, the
    loop is still running after them. *)
Theorem run_unbounded_diverges σ self e ps render fuel :
  valid_task (heap σ) self e ps →
  run fuel self None false render σ = OutOfFuel.
Proof.
  intros Hv. destruct (valid_task_lookup _ _ _ _ Hv) as [t Hs].
  pose proof (reset_spec _ _ _ _ _ Hs Hv) as Hreset.
  set (σ0 := mkState _ _ _) in Hreset.
  assert (valid_task (heap σ0) self e ps) as Hv0
    by (by apply (valid_task_insert _ _ _ _ t)).
  destruct Hv as (t0 & Hs0 & He & Hc & Hi & Hps).
  unfold run. rewrite (bind_Ok _ _ _ _ _ (get_task_Ok _ _ _ Hs0)).
  rewrite (bind_Ok _ _ _ _ _ (len_Ok _ _ _ Hi)). rewrite length_fmap.
  rewrite (bind_Ok _ _ _ _ _ Hreset).
  unfold bind at 1.
  rewrite (run_loop_unbounded_diverges self e ps); [done|done|].
  apply length_replicate.
Qed.

Lemma run_loop_stops self e ps render m :
  ∀ fuel t total σ rss σ',
    valid_task (heap σ) self e ps →
    length total = length ps →
    0 < m → m ≤ fuel →
    steps m self render σ = Ok rss σ' →
    done self σ' = Ok true σ' →
    (∀ j rsj σj, 0 < j < m → steps j self render σ = Ok rsj σj →
                 done self σj = Ok false σj) →
    run_loop fuel self None true render t total σ
    = Ok (foldl (zip_with radd) total rss) σ'
    ∧ Forall (λ rs, length rs = length ps) rss.
Proof.
  induction m as [|m IH]; intros fuel t total σ rss σ' Hv Hlen Hm Hfuel
    Hsteps Hdone Hmid; [lia|].
  destruct fuel as [|fuel]; [lia|]. cbn [run_loop].
  destruct (step_valid _ _ _ _ true render Hv) as (rs & σ1 & Hstep & Hrs & Hv1).
  destruct (steps_S_inv _ _ _ _ _ _ _ _ Hstep Hsteps) as (rss' & Hsteps' & ->).
  rewrite (bind_Ok _ _ _ _ _ Hstep).
  rewrite (bind_Ok _ _ _ _ _ (np_iadd_Ok _ _ _ (eq_trans Hrs (eq_sym Hlen)))).
  destruct (valid_task_lookup _ _ _ _ Hv1) as [t1 Hs1].
  erewrite bind_Ok;
    [|by rewrite (bind_Ok _ _ _ _ _ (get_task_Ok _ _ _ Hs1))].
  destruct m as [|m].
  - inversion Hsteps'; subst rss' σ'.
    rewrite (done_Ok _ _ _ Hs1) in Hdone. inversion Hdone as [Hd].
    rewrite Hd. split; [done|]. by repeat constructor.
  - assert (done self σ1 = Ok false σ1) as Hd1.
    { apply (Hmid 1 [rs] σ1); [lia|]. cbn [steps].
      by rewrite (bind_Ok _ _ _ _ _ Hstep). }
    rewrite (done_Ok _ _ _ Hs1) in Hd1. inversion Hd1 as [Hd]. rewrite Hd.
    destruct (IH fuel (S t) (zip_with radd total rs) σ1 rss' σ')
      as [Hloop Hall]; try done; try lia.
    { rewrite length_zip_with. lia. }
    { intros j rsj σj Hj Hsj. apply (Hmid (S j) (rs :: rsj) σj); [lia|].
      cbn [steps]. rewrite (bind_Ok _ _ _ _ _ Hstep).
      by rewrite (bind_Ok _ _ _ _ _ Hsj). }
    split; [done|]. by constructor.
Qed.

(** X11: without a number of steps, [run] under the terminating condition
    returns right after the first step that leaves the task done, however
    many steps that takes, with the totals of the rewards up to that step. *)
Theorem run_unbounded_stops σ self e ps render σ0 m rss σ' fuel :
  valid_task (heap σ) self e ps →
  reset self σ = Ok tt σ0 →
  0 < m →
  steps m self render σ0 = Ok rss σ' →
  done self σ' = Ok true σ' →
  (∀ j rsj σj, 0 < j < m → steps j self render σ0 = Ok rsj σj →
               done self σj = Ok false σj) →
  m ≤ fuel →
  run fuel self None true render σ = Ok (collapsed (length ps) rss) σ'.
Proof.
  intros Hv Hreset Hm Hsteps Hdone Hmid Hfuel.
  destruct (valid_task_lookup _ _ _ _ Hv) as [t Hs].
  pose proof (reset_spec _ _ _ _ _ Hs Hv) as Hr. rewrite Hreset in Hr.
  inversion Hr as [Hσ0]; clear Hr.
  assert (valid_task (heap σ0) self e ps) as Hv0
    by (rewrite Hσ0; by apply (valid_task_insert _ _ _ _ t)).
  destruct (run_loop_stops self e ps render m fuel 0
              (replicate (length ps) rzero) σ0 rss σ')
    as [Hloop Hall]; try done.
  { apply length_replicate. }
  destruct Hv as (t0 & Hs0 & He & Hc & Hi & Hps).
  unfold run. rewrite (bind_Ok _ _ _ _ _ (get_task_Ok _ _ _ Hs0)).
  rewrite (bind_Ok _ _ _ _ _ (len_Ok _ _ _ Hi)). rewrite length_fmap.
  rewrite (bind_Ok _ _ _ _ _ Hreset).
  rewrite (bind_Ok _ _ _ _ _ Hloop).
  rewrite (foldl_zip_with_totals _ _ Hall). unfold collapsed.
  destruct (length ps) as [|[|n']]; try done.
Qed.

End RunProperties.

(** ** A task of no policy, and a task and its copy *)

Section EdgeProperties.
Context `{Collab}.

Lemma step_nil σ self e det (render : bool) :
  valid_task (heap σ) self e [] →
  step self det render σ
  = Ok [] (mkState _ (heap σ)
             (if render then env_render e (world σ) else env_hide e (world σ))).
Proof.
  intros Hv. destruct (valid_task_lookup _ _ _ _ Hv) as [t Hs].
  rewrite (step_spec _ _ _ _ _ det render Hs Hv). simpl. f_equal. f_equal.
  apply insert_id. rewrite Hs. by destruct t.
Qed.

Lemma run_loop_no_policy_bounded self e (n : Z) utc (render : bool) tk k :
  ∀ fuel t σ,
    heap σ !! self = Some (OTask tk) →
    _done tk = false →
    valid_task (heap σ) self e [] →
    Z.to_nat (n - Z.of_nat t) = k →
    k < fuel →
    run_loop fuel self (Some n) utc render t [] σ
    = Ok [] (mkState _ (heap σ)
               (Nat.iter k (λ w, if render then env_render e w else env_hide e w)
                  (world σ))).
Proof.
  induction k as [|k IH]; intros fuel t σ Hs Hd Hv Hk Hfuel;
    (destruct fuel as [|fuel]; [lia|]); cbn [run_loop].
  - assert ((n <=? Z.of_nat t)%Z = true) as -> by (apply Z.leb_le; lia).
    by destruct σ.
  - assert ((n <=? Z.of_nat t)%Z = false) as -> by (apply Z.leb_gt; lia).
    rewrite (bind_Ok _ _ _ _ _ (step_nil _ _ _ true render Hv)).
    rewrite (bind_Ok _ _ _ _ _ (np_iadd_Ok [] [] _ eq_refl)).
    cbn [zip_with].
    set (σ1 := mkState _ (heap σ) _).
    assert ((if utc then (let* task := get_task self in ret (_done task))
             else ret false) σ1 = Ok false σ1) as Hread.
    { destruct utc; [|done].
      by rewrite (bind_Ok _ _ _ _ _ (get_task_Ok σ1 _ tk Hs)), Hd. }
    rewrite (bind_Ok _ _ _ _ _ Hread).
    rewrite (IH fuel (S t)); try done; try lia.
    cbn [heap world σ1]. by rewrite Nat.iter_succ_r.
Qed.

Lemma run_loop_no_policy_unbounded self e utc (render : bool) tk fuel :
  ∀ t σ,
    heap σ !! self = Some (OTask tk) →
    _done tk = false →
    valid_task (heap σ) self e [] →
    run_loop fuel self None utc render t [] σ = OutOfFuel.
Proof.
  induction fuel as [|fuel IH]; intros t σ Hs Hd Hv; [done|]. cbn [run_loop].
  rewrite (bind_Ok _ _ _ _ _ (step_nil _ _ _ true render Hv)).
  rewrite (bind_Ok _ _ _ _ _ (np_iadd_Ok [] [] _ eq_refl)).
  cbn [zip_with].
  set (σ1 := mkState _ (heap σ) _).
  assert ((if utc then (let* task := get_task self in ret (_done task))
           else ret false) σ1 = Ok false σ1) as Hread.
  { destruct utc; [|done].
    by rewrite (bind_Ok _ _ _ _ _ (get_task_Ok σ1 _ tk Hs)), Hd. }
  rewrite (bind_Ok _ _ _ _ _ Hread).
  by apply IH.
Qed.

(** X10: for a task of no policy the terminating condition changes
    nothing, as no step sets the flag [_done]: with a number of steps, [run]
    makes them all, each being one call of [render] or [hide], and returns
    an empty vector; without one it never returns. *)
Theorem run_no_policy σ self t e utc (render : bool) :
  heap σ !! self = Some (OTask t) →
  valid_task (heap σ) self e [] →
  (∀ (n : Z) fuel,
     Z.to_nat n < fuel →
     run fuel self (Some n) utc render σ
     = Ok (Vector [])
          (mkState _
             (<[self := OTask (mkTask (env t) (policies t) false false)]> (heap σ))
             (Nat.iter (Z.to_nat n)
                (λ w, if render then env_render e w else env_hide e w)
                (env_reset e (world σ)).2)))
  ∧ (∀ fuel, run fuel self None utc render σ = OutOfFuel).
Proof.
  intros Hs Hv. pose proof (reset_spec _ _ _ _ _ Hs Hv) as Hreset.
  set (t0 := mkTask (env t) (policies t) false false) in *.
  set (σ0 := mkState _ _ _) in Hreset.
  assert (heap σ0 !! self = Some (OTask t0)) as Hs0 by apply lookup_insert_eq.
  assert (valid_task (heap σ0) self e []) as Hv0
    by (by apply (valid_task_insert _ _ _ _ t)).
  destruct Hv as (t' & Hs' & He & Hc & Hi & Hps).
  assert (t' = t) as -> by congruence.
  split.
  - intros n fuel Hfuel. unfold run.
    rewrite (bind_Ok _ _ _ _ _ (get_task_Ok _ _ _ Hs)).
    rewrite (bind_Ok _ _ _ _ _ (len_Ok _ _ _ Hi)). cbn [fmap list_fmap length replicate].
    rewrite (bind_Ok _ _ _ _ _ Hreset).
    erewrite bind_Ok;
      [|apply (run_loop_no_policy_bounded self e n utc render t0 (Z.to_nat n));
        try done; f_equal; lia].
    done.
  - intros fuel. unfold run.
    rewrite (bind_Ok _ _ _ _ _ (get_task_Ok _ _ _ Hs)).
    rewrite (bind_Ok _ _ _ _ _ (len_Ok _ _ _ Hi)). cbn [fmap list_fmap length replicate].
    rewrite (bind_Ok _ _ _ _ _ Hreset).
    unfold bind at 1.
    by rewrite (run_loop_no_policy_unbounded self e utc render t0).
Qed.

Lemma valid_task_insert_fresh h self e ps c o :
  h !! c = None →
  valid_task h self e ps →
  valid_task (<[c := o]> h) self e ps.
Proof.
  intros Hc (t & Hs & He & Hce & Hi & Hps). exists t. split_and!; try done.
  - rewrite lookup_insert_ne; [done|]. intros <-. congruence.
  - rewrite lookup_insert_ne; [done|]. intros <-. congruence.
  - by apply items_insert_fresh.
  - eapply Forall_impl; [exact Hps|]. intros p Hp. simpl in *.
    rewrite lookup_insert_ne; [done|]. intros <-. congruence.
Qed.

(** X12: a task and its shallow copy drive the same environment and the
    same policies: a step of the copy returns the rewards and leaves the
    world that the same step of the original would.  It writes the flag
    [_done] of the copy, which becomes what the environment reported for
    the last policy, and of the copy only: the flag of the original stays
    as it was, as the flag of the copy does under a step of the original. *)
Theorem copy_steps_shared_world σ self t e ps det (render : bool) :
  heap σ !! self = Some (OTask t) →
  valid_task (heap σ) self e ps →
  let w0 := if render then env_render e (world σ) else env_hide e (world σ) in
  let reports := (exchanges e det ps w0).1.*2 in
  ∃ c σ1 rs σc σs,
    __copy__ self σ = Ok c σ1
    ∧ step c det render σ1 = Ok rs σc
    ∧ step self det render σ1 = Ok rs σs
    ∧ world σc = world σs
    ∧ done c σc = Ok (default false (last reports)) σc
    ∧ done self σc = Ok (_done t) σc
    ∧ done self σs = Ok (default (_done t) (last reports)) σs
    ∧ done c σs = Ok false σs
    ∧ (∀ ps' p, ps = ps' ++ [p] →
         done c σc = Ok (exchange e det p (exchanges e det ps' w0).2).1.2 σc).
Proof.
  intros Hs Hv w0 reports. pose proof (fresh_lookup (heap σ)) as Hf.
  pose proof (Task_copy_spec _ _ _ _ _ Hs Hv) as Hcopy.
  set (c := fresh (dom (heap σ))) in *.
  set (tc := mkTask (env t) (policies t) false false) in *.
  set (σ1 := mkState _ _ _) in Hcopy.
  assert (c ≠ self) as Hne by (intros Heq; congruence).
  assert (heap σ1 !! c = Some (OTask tc)) as Hsc by apply lookup_insert_eq.
  assert (heap σ1 !! self = Some (OTask t)) as Hs1
    by (simpl; by rewrite lookup_insert_ne).
  assert (valid_task (heap σ1) self e ps) as Hv1
    by (by apply valid_task_insert_fresh).
  assert (valid_task (heap σ1) c e ps) as Hvc.
  { destruct Hv1 as (t' & Hs' & He & Hce & Hi & Hps).
    assert (t' = t) as -> by congruence.
    exists tc. by split_and!. }
  pose proof (step_spec _ _ _ _ _ det render Hsc Hvc) as Hstepc.
  pose proof (step_spec _ _ _ _ _ det render Hs1 Hv1) as Hsteps.
  cbn zeta in Hstepc, Hsteps. cbn [world σ1] in Hstepc, Hsteps.
  fold w0 in Hstepc, Hsteps. fold reports in Hstepc, Hsteps.
  set (σc := mkState _ _ _) in Hstepc.
  set (σs := mkState _ _ _) in Hsteps.
  assert (done c σc = Ok (default false (last reports)) σc) as Hdc
    by (by erewrite done_Ok; [|simpl; apply lookup_insert_eq]).
  exists c, σ1, ((exchanges e det ps w0).1.*1), σc, σs.
  split; [exact Hcopy|]. split; [exact Hstepc|].
  split; [exact Hsteps|]. split; [done|]. split; [exact Hdc|]. split_and!.
  - by erewrite done_Ok; [|simpl; by rewrite !lookup_insert_ne].
  - by erewrite done_Ok; [|simpl; apply lookup_insert_eq].
  - by erewrite done_Ok;
      [|simpl; rewrite lookup_insert_ne by (by apply not_eq_sym);
        apply lookup_insert_eq].
  - intros ps' p ->. rewrite Hdc. unfold reports.
    rewrite exchanges_snoc_log, fmap_app.
    change (snd <$> [?x]) with [snd x]. by rewrite last_snoc.
Qed.

End EdgeProperties.

(** * [HalfCheetah.__init__] *)

Module HalfCheetahProperties.
Import HalfCheetah.

Lemma init_pos_cases sim pos orient fixed sc path :
  init_pos (__init__ sim pos orient fixed sc path)
  = match pos with
    | None => Tuple [Float (-5) 1; Float 0 0; Float 1 1]
    | Some c => if length (items_of c) =? 2
                then Tuple (items_of c ++ [Float 1 1])
                else c
    end.
Proof. unfold __init__. by destruct pos. Qed.

(** X15: the robot gets a position of three coordinates exactly when
    [init_pos] is [None] or has two or three coordinates.  Two coordinates
    are kept as [x] and [y] and completed by [0.1], in a tuple; a position of
    any other length is passed on as it is, unchecked. *)
Theorem init_pos_three_coordinates sim pos orient fixed sc path :
  let r := __init__ sim pos orient fixed sc path in
  (length (items_of (init_pos r)) = 3
   ↔ pos = None
     ∨ ∃ c, pos = Some c
            ∧ (length (items_of c) = 2 ∨ length (items_of c) = 3))
  ∧ (∀ c x y, pos = Some c → items_of c = [x; y] →
              init_pos r = Tuple [x; y; Float 1 1])
  ∧ (∀ c, pos = Some c → length (items_of c) ≠ 2 → init_pos r = c).
Proof.
  intros r. unfold r. rewrite init_pos_cases. split_and!.
  - destruct pos as [c|]; [|naive_solver].
    destruct (length (items_of c) =? 2) eqn:Hlen.
    + apply Nat.eqb_eq in Hlen. simpl. rewrite length_app, Hlen. simpl.
      naive_solver.
    + apply Nat.eqb_neq in Hlen. split.
      * intros H3. right. exists c. auto.
      * intros [?|(c' & [= <-] & [?|?])]; [done|lia|done].
  - intros c x y -> Hxy. by rewrite Hxy.
  - intros c -> Hlen. apply Nat.eqb_neq in Hlen. by rewrite Hlen.
Qed.

(** X16: what the constructor passes on is settled: a robot made from the
    position, the orientation and the base flag that a first robot got is
    the same robot again. *)
Theorem init_idempotent sim pos orient fixed sc path :
  let r := __init__ sim pos orient fixed sc path in
  __init__ (simulator r) (Some (init_pos r)) (Some (init_orient r))
    (Some (useFixedBase r)) (scaling r) (urdf_path r)
  = r.
Proof.
  intros r.
  assert ((length (items_of (init_pos r)) =? 2) = false) as Hlen.
  { unfold r. rewrite init_pos_cases. destruct pos as [c|]; [|done].
    destruct (length (items_of c) =? 2) eqn:Hc; [|done].
    apply Nat.eqb_eq in Hc. apply Nat.eqb_neq. simpl. rewrite length_app, Hc.
    simpl. lia. }
  unfold __init__ at 1. cbn zeta. rewrite Hlen. reflexivity.
Qed.

End HalfCheetahProperties.

(** * The further properties at work on the stub *)

Lemma get_policy_index_witness :
  heap (stub_task_state None false false 0) !! the_task
  = Some (OTask (mkTask (VRef the_env) (VRef list_ab) false false))
  ∧ valid_task (heap (stub_task_state None false false 0)) the_task the_env
      [policy_a; policy_b]
  ∧ get_policy the_task (Some (-1)%Z) (stub_task_state None false false 0)
    = Ok (VRef policy_b) (stub_task_state None false false 0)
  ∧ get_policy the_task (Some 2%Z) (stub_task_state None false false 0)
    = Raise IndexError.
Proof.
  assert (heap (stub_task_state None false false 0) !! the_task
          = Some (OTask (mkTask (VRef the_env) (VRef list_ab) false false))) as Hs
    by (vm_compute; reflexivity).
  assert (valid_task (heap (stub_task_state None false false 0)) the_task the_env
            [policy_a; policy_b]) as Hv by stub_valid.
  split; [exact Hs|]. split; [exact Hv|].
  destruct (get_policy_index _ _ _ _ _ Hs Hv) as (Hat & Herr & _).
  split.
  - exact (proj2 (Hat 1 policy_b eq_refl)).
  - apply Herr. simpl. lia.
Defined.

Lemma get_learning_model_list_witness :
  valid_task (heap (stub_task_state None false false 0)) the_task the_env
    [policy_a; policy_b]
  ∧ get_learning_model the_task (Some (-3)%Z) (stub_task_state None false false 0)
    = Raise IndexError.
Proof.
  assert (valid_task (heap (stub_task_state None false false 0)) the_task the_env
            [policy_a; policy_b]) as Hv by stub_valid.
  split; [exact Hv|].
  destruct (get_learning_model_list _ _ _ _ Hv) as (_ & _ & _ & _ & _ & Herr).
  apply Herr. simpl. lia.
Defined.

Lemma collapsing_accessors_are_getters_witness :
  valid_task (heap (stub_task_state None false false 0)) the_task the_env
    [policy_a; policy_b]
  ∧ policy the_task (stub_task_state None false false 0)
    = get_policy the_task None (stub_task_state None false false 0)
  ∧ learning_model the_task (stub_task_state None false false 0)
    = get_learning_model the_task None (stub_task_state None false false 0).
Proof.
  assert (valid_task (heap (stub_task_state None false false 0)) the_task the_env
            [policy_a; policy_b]) as Hv by stub_valid.
  split; [exact Hv|].
  exact (collapsing_accessors_are_getters _ _ _ _ Hv).
Defined.


Lemma Task_new_string_witness :
  isinstance_Env (heap (stub_state None 0)) (VRef the_env) = true
  ∧ "ab"%string ≠ EmptyString
  ∧ Task_new (VRef the_env) (VStr "ab") (stub_state None 0) = Raise TypeError.
Proof.
  assert (isinstance_Env (heap (stub_state None 0)) (VRef the_env) = true) as He
    by (vm_compute; reflexivity).
  assert ("ab"%string ≠ EmptyString) as Hs by discriminate.
  split; [exact He|]. split; [exact Hs|].
  exact (proj2 (Task_new_string _ _ "ab" He) Hs).
Defined.

Lemma methods_keep_bindings_witness :
  heap (stub_task_state None true true 4) !! the_task
  = Some (OTask (mkTask (VRef the_env) (VRef list_ab) true true))
  ∧ valid_task (heap (stub_task_state None true true 4)) the_task the_env
      [policy_a; policy_b]
  ∧ ∃ rs σ',
      step the_task true false (stub_task_state None true true 4) = Ok rs σ'
      ∧ valid_task (heap σ') the_task the_env [policy_a; policy_b].
Proof.
  assert (heap (stub_task_state None true true 4) !! the_task
          = Some (OTask (mkTask (VRef the_env) (VRef list_ab) true true))) as Hs
    by (vm_compute; reflexivity).
  assert (valid_task (heap (stub_task_state None true true 4)) the_task the_env
            [policy_a; policy_b]) as Hv by stub_valid.
  split; [exact Hs|]. split; [exact Hv|].
  destruct (methods_keep_bindings _ _ _ _ _ Hs Hv) as (_ & Hstep & _).
  destruct (Hstep true false) as (rs & σ' & Hrs & _ & _ & Hv').
  exists rs, σ'. split; [exact Hrs|exact Hv'].
Defined.

Lemma never_succeeds_witness :
  heap (stub_task_state None true true 4) !! the_task
  = Some (OTask (mkTask (VRef the_env) (VRef list_ab) true true))
  ∧ valid_task (heap (stub_task_state None true true 4)) the_task the_env
      [policy_a; policy_b]
  ∧ Z.to_nat 3 < 4
  ∧ ∃ v σ',
      run 4 the_task (Some 3%Z) true false (stub_task_state None true true 4)
      = Ok v σ'
      ∧ has_succeeded the_task σ' = Ok false σ'
      ∧ has_failed the_task σ' = Ok true σ'.
Proof.
  assert (heap (stub_task_state None true true 4) !! the_task
          = Some (OTask (mkTask (VRef the_env) (VRef list_ab) true true))) as Hs
    by (vm_compute; reflexivity).
  assert (valid_task (heap (stub_task_state None true true 4)) the_task the_env
            [policy_a; policy_b]) as Hv by stub_valid.
  assert (Z.to_nat 3 < 4) as Hfuel by (vm_compute; lia).
  split; [exact Hs|]. split; [exact Hv|]. split; [exact Hfuel|].
  destruct (never_succeeds _ _ _ _ _ Hs Hv) as (_ & _ & Hrun).
  exact (Hrun 3%Z true false 4 Hfuel).
Defined.

Lemma reset_order_witness :
  valid_task (heap (stub_task_state None true true 4)) the_task the_env
    [policy_a; policy_b]
  ∧ ∃ σ',
      reset the_task (stub_task_state None true true 4) = Ok tt σ'
      ∧ world σ' = 0.
Proof.
  assert (valid_task (heap (stub_task_state None true true 4)) the_task the_env
            [policy_a; policy_b]) as Hv by stub_valid.
  split; [exact Hv|].
  destruct (reset_order _ _ _ _ Hv) as (σ' & Hreset & Hw & _).
  exists σ'. split; [exact Hreset|exact Hw].
Defined.

Lemma step_no_policy_witness :
  valid_task (heap (stub_idle_task_state None true false 4)) the_task the_env []
  ∧ step the_task true false (stub_idle_task_state None true false 4)
    = Ok [] (stub_idle_task_state None true false 4).
Proof.
  assert (valid_task (heap (stub_idle_task_state None true false 4)) the_task
            the_env []) as Hv by stub_valid.
  split; [exact Hv|].
  exact (step_no_policy _ _ _ true false Hv).
Defined.

Lemma run_no_step_witness :
  heap (stub_task_state None true true 4) !! the_task
  = Some (OTask (mkTask (VRef the_env) (VRef list_ab) true true))
  ∧ valid_task (heap (stub_task_state None true true 4)) the_task the_env
      [policy_a; policy_b]
  ∧ (-2 ≤ 0)%Z
  ∧ 0 < 1
  ∧ run 1 the_task (Some (-2)%Z) false false (stub_task_state None true true 4)
    = Ok (Vector [0%Z; 0%Z]) (stub_task_state None false false 0).
Proof.
  assert (heap (stub_task_state None true true 4) !! the_task
          = Some (OTask (mkTask (VRef the_env) (VRef list_ab) true true))) as Hs
    by (vm_compute; reflexivity).
  assert (valid_task (heap (stub_task_state None true true 4)) the_task the_env
            [policy_a; policy_b]) as Hv by stub_valid.
  assert (-2 ≤ 0)%Z as Hn by lia.
  assert (0 < 1) as Hfuel by lia.
  split; [exact Hs|]. split; [exact Hv|]. split; [exact Hn|].
  split; [exact Hfuel|].
  rewrite (run_no_step _ _ _ _ _ (-2)%Z false false 1 Hs Hv Hn Hfuel).
  vm_compute. reflexivity.
Defined.

Lemma run_unbounded_diverges_witness :
  valid_task (heap (stub_task_state (Some 3) false false 0)) the_task the_env
    [policy_a; policy_b]
  ∧ run 100 the_task None false false (stub_task_state (Some 3) false false 0)
    = OutOfFuel.
Proof.
  assert (valid_task (heap (stub_task_state (Some 3) false false 0)) the_task
            the_env [policy_a; policy_b]) as Hv by stub_valid.
  split; [exact Hv|].
  exact (run_unbounded_diverges _ _ _ _ false 100 Hv).
Defined.

Lemma run_no_policy_witness :
  heap (stub_idle_task_state (Some 1) true false 4) !! the_task
  = Some (OTask (mkTask (VRef the_env) (VRef list_none) true false))
  ∧ valid_task (heap (stub_idle_task_state (Some 1) true false 4)) the_task
      the_env []
  ∧ run 100 the_task None true false (stub_idle_task_state (Some 1) true false 4)
    = OutOfFuel.
Proof.
  assert (heap (stub_idle_task_state (Some 1) true false 4) !! the_task
          = Some (OTask (mkTask (VRef the_env) (VRef list_none) true false)))
    as Hs by (vm_compute; reflexivity).
  assert (valid_task (heap (stub_idle_task_state (Some 1) true false 4)) the_task
            the_env []) as Hv by stub_valid.
  split; [exact Hs|]. split; [exact Hv|].
  exact (proj2 (run_no_policy _ _ _ _ true false Hs Hv) 100).
Defined.

Lemma run_unbounded_stops_witness :
  valid_task (heap (stub_task_state (Some 3) true true 7)) the_task the_env
    [policy_a; policy_b]
  ∧ reset the_task (stub_task_state (Some 3) true true 7)
    = Ok tt (stub_task_state (Some 3) false false 0)
  ∧ 0 < 2
  ∧ steps 2 the_task false (stub_task_state (Some 3) false false 0)
    = Ok [[1%Z; 1%Z]; [1%Z; 1%Z]] (stub_task_state (Some 3) true false 4)
  ∧ done the_task (stub_task_state (Some 3) true false 4)
    = Ok true (stub_task_state (Some 3) true false 4)
  ∧ 2 ≤ 2
  ∧ run 2 the_task None true false (stub_task_state (Some 3) true true 7)
    = Ok (Vector [2%Z; 2%Z]) (stub_task_state (Some 3) true false 4).
Proof.
  assert (valid_task (heap (stub_task_state (Some 3) true true 7)) the_task
            the_env [policy_a; policy_b]) as Hv by stub_valid.
  assert (reset the_task (stub_task_state (Some 3) true true 7)
          = Ok tt (stub_task_state (Some 3) false false 0)) as Hreset
    by (vm_compute; reflexivity).
  assert (0 < 2) as Hm by lia.
  assert (steps 2 the_task false (stub_task_state (Some 3) false false 0)
          = Ok [[1%Z; 1%Z]; [1%Z; 1%Z]] (stub_task_state (Some 3) true false 4))
    as Hsteps by (vm_compute; reflexivity).
  assert (done the_task (stub_task_state (Some 3) true false 4)
          = Ok true (stub_task_state (Some 3) true false 4)) as Hdone
    by (vm_compute; reflexivity).
  assert (2 ≤ 2) as Hfuel by lia.
  assert (∀ j rsj σj,
            0 < j < 2 →
            steps j the_task false (stub_task_state (Some 3) false false 0)
            = Ok rsj σj →
            done the_task σj = Ok false σj) as Hmid.
  { intros j rsj σj Hj Hsj. assert (j = 1) as -> by lia.
    vm_compute in Hsj. inversion Hsj; subst. vm_compute. reflexivity. }
  split; [exact Hv|]. split; [exact Hreset|]. split; [exact Hm|].
  split; [exact Hsteps|]. split; [exact Hdone|]. split; [exact Hfuel|].
  rewrite (run_unbounded_stops _ _ _ _ false _ 2 _ _ 2
             Hv Hreset Hm Hsteps Hdone Hmid Hfuel).
  vm_compute. reflexivity.
Defined.

Lemma copy_steps_shared_world_witness :
  heap (stub_task_state (Some 1) false true 0) !! the_task
  = Some (OTask (mkTask (VRef the_env) (VRef list_ab) false true))
  ∧ valid_task (heap (stub_task_state (Some 1) false true 0)) the_task the_env
      [policy_a; policy_b]
  ∧ ∃ c σ1 rs σc σs,
      __copy__ the_task (stub_task_state (Some 1) false true 0) = Ok c σ1
      ∧ step c true false σ1 = Ok rs σc
      ∧ step the_task true false σ1 = Ok rs σs
      ∧ world σc = world σs
      ∧ done c σc = Ok true σc
      ∧ done the_task σc = Ok false σc
      ∧ done the_task σs = Ok true σs
      ∧ done c σs = Ok false σs.
Proof.
  assert (heap (stub_task_state (Some 1) false true 0) !! the_task
          = Some (OTask (mkTask (VRef the_env) (VRef list_ab) false true))) as Hs
    by (vm_compute; reflexivity).
  assert (valid_task (heap (stub_task_state (Some 1) false true 0)) the_task
            the_env [policy_a; policy_b]) as Hv by stub_valid.
  split; [exact Hs|]. split; [exact Hv|].
  destruct (copy_steps_shared_world _ _ _ _ _ true false Hs Hv)
    as (c & σ1 & rs & σc & σs & H1 & H2 & H3 & H4 & H5 & H6 & H7 & H8 & _).
  exists c, σ1, rs, σc, σs.
  split; [exact H1|]. split; [exact H2|]. split; [exact H3|].
  split; [exact H4|]. split; [exact H5|]. split; [exact H6|].
  split; [exact H7|exact H8].
Defined.

Lemma run_one_more_step_witness :
  valid_task (heap (stub_task_state None false false 0)) the_task the_env
    [policy_a; policy_b]
  ∧ (0 ≤ 2)%Z
  ∧ Z.to_nat (2 + 1) < 4
  ∧ ∃ rss σn rs σ',
      run 4 the_task (Some 2%Z) false false (stub_task_state None false false 0)
      = Ok (collapsed 2 rss) σn
      ∧ step the_task true false σn = Ok rs σ'
      ∧ run 4 the_task (Some (2 + 1)%Z) false false
          (stub_task_state None false false 0)
        = Ok (collapsed 2 (rss ++ [rs])) σ'
      ∧ ∀ i, total_of i (rss ++ [rs]) = radd (total_of i rss) (nth i rs rzero).
Proof.
  assert (valid_task (heap (stub_task_state None false false 0)) the_task the_env
            [policy_a; policy_b]) as Hv by stub_valid.
  assert (0 ≤ 2)%Z as Hn by lia.
  assert (Z.to_nat (2 + 1) < 4) as Hfuel by (vm_compute; lia).
  split; [exact Hv|]. split; [exact Hn|]. split; [exact Hfuel|].
  exact (run_one_more_step _ _ _ _ 2%Z false 4 Hv Hn Hfuel).
Defined.

(** C4 fails as it is stated: over [flip], in the first step of a task of
    two policies the environment reports done for the first policy and not
    for the second; the flag [_done] is left false, and
    [run(num_steps=10, use_terminating_condition=True)] does not end with
    that step: it makes all the ten steps, twenty calls of [env.step]. *)
Lemma run_goes_on_after_done_report :
  ¬ (∀ rs σ1 v σ',
       step the_task true false (flip_task_state false false 0) = Ok rs σ1 →
       true ∈ (exchanges the_env true [policy_a; policy_b]
                 (env_hide the_env (world (flip_task_state false false 0)))).1.*2 →
       run 11 the_task (Some 10%Z) true false (flip_task_state false false 0)
       = Ok v σ' →
       σ' = σ1).
Proof.
  intros Hclaim.
  assert (step the_task true false (flip_task_state false false 0)
          = Ok [1%Z; 1%Z] (flip_task_state false false 2)) as Hstep
    by (vm_compute; reflexivity).
  assert ((exchanges the_env true [policy_a; policy_b]
             (env_hide the_env (world (flip_task_state false false 0)))).1.*2
          = [true; false]) as Hreports by (vm_compute; reflexivity).
  assert (run 11 the_task (Some 10%Z) true false (flip_task_state false false 0)
          = Ok (Vector [10%Z; 10%Z]) (flip_task_state false false 20)) as Hrun
    by (vm_compute; reflexivity).
  assert (flip_task_state false false 20 = flip_task_state false false 2) as Heq.
  { apply (Hclaim _ _ (Vector [10%Z; 10%Z]) _ Hstep); [|exact Hrun].
    rewrite Hreports. by left. }
  apply (f_equal world) in Heq. vm_compute in Heq. discriminate.
Qed.
